(** * jsin: schema inference from JSON samples

    A shallow embedding of the inference core of the [jsin] package:
    - [jsin/schematic_tree_nodes.py]: the node classes and their [__add__] /
      [__radd__] methods (the merge operator);
    - [jsin/jsin_error.py]: [JsinError] and its [under] method;
    - [jsin/infer.py]: [JsonPrimitiveType.tell] and [infer];
    - [jsin/pydanticalize.py]: the statement that builds the schematic tree.

    Python values are modelled by an inductive type of decoded JSON values,
    exceptions by an explicit result type, dictionaries and sets by
    stdpp's [gmap] and [gset]. *)

From Stdlib Require Import ZArith.
From stdpp Require Import gmap strings list fin_maps.

Local Open Scope string_scope.
Local Open Scope Z_scope.

(** ** Results of fallible code *)

Inductive result (E A : Type) : Type :=
| Ok (a : A)
| Raise (e : E).
Arguments Ok {E A} a.
Arguments Raise {E A} e.

Definition is_Ok {E A} (r : result E A) : bool :=
  match r with Ok _ => true | Raise _ => false end.

Definition to_option {E A} (r : result E A) : option A :=
  match r with Ok a => Some a | Raise _ => None end.

(** Sequencing: the first [Raise] propagates ([x ← r; k] below). *)
#[global] Instance result_bind {E} : MBind (result E) := λ A B k r,
  match r with Ok a => k a | Raise e => Raise e end.

(** ** Decoded JSON values ([json.loads] output, plus foreign objects) *)

#[warnings="-register-all"]
Inductive pyobj : Type :=
| PyNone
| PyBool (b : bool)
| PyInt (n : Z)
| PyFloat (mantissa exponent : Z)
| PyStr (s : string)
| PyDict (items : list (string * pyobj))   (* insertion order, keys unique *)
| PyList (elems : list pyobj)
| PyOpaque (type_name : string).           (* any other runtime type *)

(** ** schematic_tree_nodes.py *)

Module stn.

(** One constructor per concrete node class; the attribute [t] is the
    constructor itself.  [AnyNode], [NullNode] and [BooleanNode] are
    singletons in the source, here constant constructors. *)
#[warnings="-register-all"]
Inductive node : Type :=
| AnyNode
| NullNode
| BooleanNode
| NumberNode (contains_float : bool)
| StringNode (counter : gmap string Z)
| ObjectNode (fields : gmap string (node * bool * bool))
| ArrayNode (value_node : node)
| KeyIndexedArrayNode (keys : gset string) (value_node : node).

(** A field entry [(node, optional, nullable)]. *)
Abbreviation field := (node * bool * bool)%type.

Inductive SchematicTreeNodeType : Type :=
| ANY | NULL | BOOLEAN | NUMBER | STRING | OBJECT | ARRAY | KEY_INDEXED_ARRAY.

Definition t (n : node) : SchematicTreeNodeType :=
  match n with
  | AnyNode => ANY
  | NullNode => NULL
  | BooleanNode => BOOLEAN
  | NumberNode _ => NUMBER
  | StringNode _ => STRING
  | ObjectNode _ => OBJECT
  | ArrayNode _ => ARRAY
  | KeyIndexedArrayNode _ _ => KEY_INDEXED_ARRAY
  end.

#[global] Instance SchematicTreeNodeType_eq_dec : EqDecision SchematicTreeNodeType.
Proof. solve_decision. Defined.

(** [type(a) is type(b)] *)
Definition same_class (a b : node) : bool := bool_decide (t a = t b).

Definition isinstance_AnyNode (n : node) : bool :=
  match n with AnyNode => true | _ => false end.

Definition isinstance_NullNode (n : node) : bool :=
  match n with NullNode => true | _ => false end.

(** The only exception the operators raise is [TypeError]: an unsupported
    operand pair, or an [except] clause that does not name a class. *)
Inductive exn : Type := TypeError.

(** What a [__add__] / [__radd__] method hands back. *)
Inductive ret : Type :=
| Val (n : node)
| NotImplemented.

(** [collections.Counter.__add__]: counts are summed and only positive
    counts are kept. *)
Definition Counter_add (c d : gmap string Z) : gmap string Z :=
  merge (λ x y,
    match x, y with
    | Some count, _ =>
        let newcount := count + default 0 y in
        if 0 <? newcount then Some newcount else None
    | None, Some count => if 0 <? count then Some count else None
    | None, None => None
    end) c d.

(** [__radd__] of the class of [self], called as [self.__radd__(other)];
    [None] when the class defines no [__radd__]. *)
Definition node_radd (self other : node) : option node :=
  match self with
  | AnyNode => Some other
  | NullNode => Some (if isinstance_AnyNode other then self else other)
  | _ => None
  end.

(** The binary operator [a + b] once [type(a).__add__(a, b)] has run: a
    [NotImplemented] result hands over to [type(b).__radd__(b, a)], which
    Python tries only when the two classes differ. *)
Definition binary_add (r : result exn ret) (a b : node) : result exn node :=
  match r with
  | Raise e => Raise e
  | Ok (Val n) => Ok n
  | Ok NotImplemented =>
      if same_class a b then Raise TypeError
      else match node_radd b a with
           | Some n => Ok n
           | None => Raise TypeError
           end
  end.

(** Turns a dictionary of per-key outcomes into the dictionary of values;
    the first key that raised makes the whole loop raise. *)
Definition collect (m : gmap string (result exn field)) : result exn (gmap string field) :=
  if bool_decide (map_Forall (λ _ r, is_Ok r = true) m)
  then Ok (omap to_option m)
  else Raise TypeError.

(** Body of [ObjectNode.__add__] when [other] is an [ObjectNode]:
    [add value n] is [value[0] + n]. *)
Definition ObjectNode_add_fields (add : field → node → result exn node)
    (self other : gmap string field) : result exn (gmap string field) :=
  (* for key, value in self.items(): ... *)
  shared ← collect (map_imap (λ key value,
      Some (match other !! key with
            | Some o =>
                n ← add value o.1.1;
                Ok (n, value.1.2 || o.1.2, value.2 || o.2)
            | None => Ok (value.1.1, true, value.2)
            end)) self);
  (* for key in set(other.keys()).difference(self.keys()): ... *)
  let rest := (λ o : field, (o.1.1, true, o.2)) <$> (other ∖ self) in
  Ok (shared ∪ rest).

(** Fields of [KeyIndexedArrayNode.to_object_node]. *)
Definition to_object_node_fields (keys : gset string) (value_node : node)
    : gmap string field :=
  let nullable := isinstance_NullNode value_node in
  gset_to_gmap (value_node, false, nullable) keys.

Definition to_object_node (keys : gset string) (value_node : node) : node :=
  ObjectNode (to_object_node_fields keys value_node).

(** [try: body except NotImplementedError(): handler].  The clause names an
    instance, not an exception class: when [body] raises, matching the
    clause raises [TypeError] itself and [handler] never runs. *)
Definition try_except_instance {A} (body : result exn A) (handler : result exn A)
    : result exn A :=
  match body with
  | Ok a => Ok a
  | Raise _ => Raise TypeError
  end.

(** [a + b].  The outer [match] is [type(a).__add__(a, b)].  The recursion
    is on [a]: [ObjectNode.__add__] adds the nodes of its own fields,
    [ArrayNode] and [KeyIndexedArrayNode] their own [value_node]; in the
    [self.to_object_node() + other] fallback every field of the converted
    node holds [self.value_node]. *)
Fixpoint node_add (a b : node) {struct a} : result exn node :=
  binary_add
    match a with
    | AnyNode => Ok (Val b)
    | NullNode =>
        if isinstance_AnyNode b then Ok (Val a) else Ok (Val b)
    | BooleanNode =>                      (* SingletonNode.__add__ *)
        match b with
        | BooleanNode => Ok (Val a)       (* other is self *)
        | _ => Ok NotImplemented
        end
    | NumberNode contains_float =>
        match b with
        | NumberNode contains_float' =>
            Ok (Val (NumberNode (contains_float || contains_float')))
        | _ => Ok NotImplemented
        end
    | StringNode counter =>
        match b with
        | StringNode counter' =>
            Ok (Val (StringNode (Counter_add counter counter')))
        | _ => Ok NotImplemented
        end
    | ObjectNode fields =>
        match b with
        | ObjectNode fields' =>
            new_fields ← ObjectNode_add_fields
                           (λ value n, node_add value.1.1 n) fields fields';
            Ok (Val (ObjectNode new_fields))
        | _ => Ok NotImplemented
        end
    | ArrayNode value_node =>
        match b with
        | ArrayNode value_node' =>
            v ← node_add value_node value_node';
            Ok (Val (ArrayNode v))
        | _ => Ok NotImplemented
        end
    | KeyIndexedArrayNode keys value_node =>
        (* self.to_object_node() + other *)
        let fallback :=
          let self_object := to_object_node keys value_node in
          n ← binary_add
                match b with
                | ObjectNode fields' =>
                    new_fields ← ObjectNode_add_fields
                                   (λ _ n, node_add value_node n)
                                   (to_object_node_fields keys value_node) fields';
                    Ok (Val (ObjectNode new_fields))
                | _ => Ok NotImplemented
                end self_object b;
          Ok (Val n) in
        match b with
        | KeyIndexedArrayNode keys' value_node' =>
            try_except_instance
              (v ← node_add value_node value_node';
               Ok (Val (KeyIndexedArrayNode (keys ∪ keys') v)))
              fallback
        | _ => fallback
        end
    end a b.

(** [sum(children, start=start)]: a left fold of [+]. *)
Fixpoint sum (children : list node) (start : node) : result exn node :=
  match children with
  | [] => Ok start
  | c :: children' => acc ← node_add start c; sum children' acc
  end.

(** [self.removesuffix(suffix)] of [str]: a non-empty suffix that ends
    [self] is cut off, any other string comes back unchanged. *)
Definition removesuffix (self suffix : string) : string :=
  let n := String.length self in
  let k := String.length suffix in
  if bool_decide (suffix ≠ "" ∧ (k ≤ n)%nat
                  ∧ String.substring (n - k) k self = suffix)
  then String.substring 0 (n - k) self
  else self.

(** [iter_nodes_postorder]: the pairs [(node, name)] in the order they are
    yielded.  The fields of an [ObjectNode] are visited in the order of its
    dictionary, here the enumeration order of the map. *)
Fixpoint iter_nodes_postorder (self : node) (name : string)
    : list (node * string) :=
  match self with
  | ObjectNode fields =>
      (map_fold (λ key (value : field) rest,
                   iter_nodes_postorder value.1.1 key ++ rest) [] fields
       ++ [(self, name)])%list
  | ArrayNode value_node | KeyIndexedArrayNode _ value_node =>
      (iter_nodes_postorder value_node (removesuffix name "s")
       ++ [(self, name)])%list
  | _ => [(self, name)]                  (* BaseNode.iter_nodes_postorder *)
  end.

(** [Counter.total()]: the sum of the counts. *)
Definition Counter_total (c : gmap string Z) : Z :=
  map_fold (λ _ count acc, count + acc) 0 c.

(** [StringNode.infer_whether_is_enum]:
    [len(self.counter) ** 2 < self.counter.total()]. *)
Definition infer_whether_is_enum (counter : gmap string Z) : bool :=
  bool_decide (Z.of_nat (size counter) ^ 2 < Counter_total counter).

End stn.

(** [try: body except E as e: handler e] for a clause that matches every
    exception [body] can raise. *)
Definition try_except {E E' A} (body : result E A) (handler : E → result E' A)
    : result E' A :=
  match body with
  | Ok a => Ok a
  | Raise e => handler e
  end.

(** ** jsin_error.py *)

Module jsin_error.

(** The two subclasses of [JsinError] (declared in infer.py) with the
    argument each is constructed with, [self.args]. *)
Inductive JsinError_args : Type :=
| UnrecognizableTypeError (obj : pyobj)
| IncompatibleNodesError (nodes : list stn.node).

Record JsinError : Type := mkJsinError {
  args : JsinError_args;
  loc : list string;
}.

(** A fresh error of the class and arguments of [a]: [JsinError.__init__]
    sets [loc] to the empty tuple. *)
Definition new (a : JsinError_args) : JsinError :=
  {| args := a; loc := [] |}.

(** [JsinError.under] as a function of the error's contents. *)
Definition under (parent_loc : string) (self : JsinError) : JsinError :=
  let new_error := new (args self) in
  {| args := args new_error; loc := parent_loc :: loc self |}.

(** Exception objects live in a store and are named by their address;
    [under_obj] is [under] on the store: it allocates [new_error], then
    assigns its [loc]. *)
Abbreviation store := (list JsinError).

Definition under_obj (parent_loc : string) (self : nat) (h : store)
    : option (nat * store) :=
  e ← h !! self;
  let new_error := length h in
  let h := (h ++ [new (args e)])%list in
  self_loc ← loc <$> h !! self;
  let h := alter (λ o, {| args := args o; loc := parent_loc :: self_loc |})
                 new_error h in
  Some (new_error, h).

End jsin_error.

(** ** infer.py *)

Module infer.
Import stn jsin_error.

Module JsonPrimitiveType.

Inductive t : Type :=
| NULL | TRUE | FALSE | NUMBER | STRING | ARRAY | OBJECT.

(** [JsonPrimitiveType.tell].  In the [bool] branch the assignment
    [t = cls.FALSE] follows the [if obj:] statement, it is not under an
    [else]. *)
Definition tell (obj : pyobj) : result JsinError t :=
  match obj with
  | PyNone => Ok NULL
  | PyBool b =>
      let t := if b then Some TRUE else None in
      let t := FALSE in
      Ok t
  | PyInt _ | PyFloat _ _ => Ok NUMBER
  | PyStr _ => Ok STRING
  | PyDict _ => Ok OBJECT
  | PyList _ => Ok ARRAY
  | PyOpaque _ => Raise (new (UnrecognizableTypeError obj))
  end.

End JsonPrimitiveType.
Import JsonPrimitiveType.

Definition isinstance_float (obj : pyobj) : bool :=
  match obj with PyFloat _ _ => true | _ => false end.

(** [d[key] = value] on an insertion-ordered dictionary. *)
Fixpoint dict_setitem {V} (key : string) (value : V) (d : list (string * V))
    : list (string * V) :=
  match d with
  | [] => [(key, value)]
  | (k, v) :: d' =>
      if bool_decide (k = key) then (k, value) :: d'
      else (k, v) :: dict_setitem key value d'
  end.

Section loops.
Variable infer : pyobj → result JsinError node.

(** [[infer(elem) for elem in obj]] *)
Fixpoint infer_elems (obj : list pyobj) : result JsinError (list node) :=
  match obj with
  | [] => Ok []
  | elem :: rest =>
      n ← infer elem;
      ns ← infer_elems rest;
      Ok (n :: ns)
  end.

(** The [for key, value in obj.items()] loop that fills [object_node]. *)
Fixpoint infer_items (items : list (string * pyobj))
    (object_node : list (string * field))
    : result JsinError (list (string * field)) :=
  match items with
  | [] => Ok object_node
  | (key, value) :: rest =>
      value_node ← try_except (infer value) (λ e, Raise (under key e));
      infer_items rest
        (dict_setitem key (value_node, false, isinstance_NullNode value_node)
           object_node)
  end.
End loops.

(** The second half of the OBJECT case: the key-indexed array is tried
    first, the object node is what remains when that raises. *)
Definition promote (object_node : list (string * field)) : result JsinError node :=
  try_except
    (let keys : gset string := list_to_set object_node.*1 in
     let children := (λ tup : field, tup.1.1) <$> object_node.*2 in
     value_node ← try_except (sum children AnyNode)
                    (λ _, Raise (new (IncompatibleNodesError children)));
     Ok (KeyIndexedArrayNode keys value_node))
    (λ _ : JsinError, Ok (ObjectNode (list_to_map object_node))).

(** [infer].  The recursion follows the nesting of the value.  The
    interpreter's recursion limit is not modelled: what is stated of [infer]
    is stated of a run that stays within it. *)
Fixpoint infer (obj : pyobj) : result JsinError node :=
  t ← tell obj;
  match t, obj with
  | NULL, _ => Ok NullNode
  | (TRUE | FALSE), _ => Ok BooleanNode
  | NUMBER, _ => Ok (NumberNode (isinstance_float obj))
  | STRING, PyStr s =>
      (* node.counter[obj] += 1 on an empty Counter *)
      Ok (StringNode {[ s := 0 + 1 ]})
  | ARRAY, PyList elems =>
      children ← try_except (infer_elems infer elems)
                   (λ e, Raise (under "ARRAY_ELEMENT" e));
      value_node ← try_except (sum children AnyNode)
                     (λ _, Raise (new (IncompatibleNodesError children)));
      Ok (ArrayNode value_node)
  | OBJECT, PyDict items =>
      object_node ← infer_items infer items [];
      promote object_node
  | _, _ => Raise (new (UnrecognizableTypeError obj))
  end.

End infer.

(** ** pydanticalize.py *)

Module pydanticalize.
Import stn jsin_error infer.

(** What the first statement of [pydanticalize] can raise: an error of
    [infer], or [AttributeError] when the node [infer] returns has no
    [to_object_node] method. *)
Inductive exn : Type :=
| Jsin (e : JsinError)
| AttributeError.

(** [n.to_object_node()]: only [KeyIndexedArrayNode] defines the method. *)
Definition call_to_object_node (n : node) : result exn node :=
  match n with
  | KeyIndexedArrayNode keys value_node => Ok (to_object_node keys value_node)
  | _ => Raise AttributeError
  end.

(** [schematic_tree = infer({'json': obj}).to_object_node()] *)
Definition schematic_tree (obj : pyobj) : result exn node :=
  n ← try_except (infer (PyDict [("json", obj)])) (λ e, Raise (Jsin e));
  call_to_object_node n.

End pydanticalize.

Import stn jsin_error infer.

(** ** Vocabulary of the statements below *)

(** The entry [ObjectNode.__add__] computes for one key, from the entries
    of the two operands. *)
Definition add_entry (add : field → node → result exn node)
    (v o : option field) : option (result exn field) :=
  match v, o with
  | Some value, Some o =>
      Some (n ← add value o.1.1; Ok (n, value.1.2 || o.1.2, value.2 || o.2))
  | Some value, None => Some (Ok (value.1.1, true, value.2))
  | None, Some o => Some (Ok (o.1.1, true, o.2))
  | None, None => None
  end.

(** The entry [infer] stores for a field whose value inferred to [n]. *)
Definition fresh_field (n : node) : field := (n, false, isinstance_NullNode n).

(** The values found in [obj] by following [path]: a key selects the item
    of a dictionary, ["ARRAY_ELEMENT"] stands for any element of a list. *)
Fixpoint descend (path : list string) (obj : pyobj) : list pyobj :=
  match path with
  | [] => [obj]
  | segment :: path' =>
      match obj with
      | PyList elems =>
          if bool_decide (segment = "ARRAY_ELEMENT")
          then elems ≫= descend path' else []
      | PyDict items =>
          (filter (λ item, item.1 = segment) items).*2 ≫= descend path'
      | _ => []
      end
  end.

(** Counters as [infer] builds them: every stored count is positive. *)
Definition positive_counts (c : gmap string Z) : Prop :=
  map_Forall (λ _ count, 0 < count) c.

(** Nodes that hold no [KeyIndexedArrayNode] at any depth and whose
    counters hold positive counts only. *)
Fixpoint plain (n : node) : bool :=
  match n with
  | AnyNode | NullNode | BooleanNode | NumberNode _ => true
  | StringNode counter =>
      bool_decide (map_Forall (λ _ count, 0 < count) counter)
  | ObjectNode fields =>
      map_fold (λ _ (value : field) acc, plain value.1.1 && acc) true fields
  | ArrayNode value_node => plain value_node
  | KeyIndexedArrayNode _ _ => false
  end.

Definition all_plain (l : list node) : Prop := Forall (λ n, plain n = true) l.

(** The number of nodes of a tree, the measure of the inductions below. *)
Fixpoint node_size (n : node) : nat :=
  match n with
  | ObjectNode fields =>
      S (map_fold (λ _ (value : field) acc, (node_size value.1.1 + acc)%nat)
           0%nat fields)
  | ArrayNode value_node => S (node_size value_node)
  | KeyIndexedArrayNode _ value_node => S (node_size value_node)
  | _ => 1%nat
  end.

(** [value[0] + n], the addition [ObjectNode.__add__] performs on entries. *)
Abbreviation field_add := (λ (value : field) (n : node), node_add value.1.1 n).

(** The entry of one key after two merges of three records, grouped to the
    left and to the right. *)
Definition add_entry_l add (x y z : option field) : option (result exn field) :=
  match add_entry add x y with
  | None => add_entry add None z
  | Some (Ok v) => add_entry add (Some v) z
  | Some (Raise e) => Some (Raise e)
  end.

Definition add_entry_r add (x y z : option field) : option (result exn field) :=
  match add_entry add y z with
  | None => add_entry add x None
  | Some (Ok v) => add_entry add x (Some v)
  | Some (Raise e) => Some (Raise e)
  end.

(** A grouping of operands for repeated pairwise merging, its operands from
    left to right, and the node it reduces to. *)
Inductive grouping : Type :=
| Operand (n : node)
| Pairwise (l r : grouping).

Fixpoint operands (g : grouping) : list node :=
  match g with
  | Operand n => [n]
  | Pairwise l r => operands l ++ operands r
  end.

Fixpoint reduce (g : grouping) : result exn node :=
  match g with
  | Operand n => Ok n
  | Pairwise l r => a ← reduce l; b ← reduce r; node_add a b
  end.

(** Nodes all of whose counters, at any depth, hold positive counts. *)
Fixpoint counts_positive (n : node) : bool :=
  match n with
  | StringNode counter =>
      bool_decide (map_Forall (λ _ count, 0 < count) counter)
  | ObjectNode fields =>
      map_fold (λ _ (value : field) acc, counts_positive value.1.1 && acc)
        true fields
  | ArrayNode value_node | KeyIndexedArrayNode _ value_node =>
      counts_positive value_node
  | _ => true
  end.

(** Decoded values that hold no dictionary at any depth. *)
Fixpoint dict_free (obj : pyobj) : bool :=
  match obj with
  | PyDict _ => false
  | PyList elems => forallb dict_free elems
  | _ => true
  end.

(** How often [s] occurs in [l]. *)
Definition occurrences (s : string) (l : list string) : Z :=
  Z.of_nat (length (filter (λ x, x = s) l)).

(** The keys a node of an inferred object records. *)
Definition recorded_keys (n : node) : gset string :=
  match n with
  | KeyIndexedArrayNode keys _ => keys
  | ObjectNode fields => dom fields
  | _ => ∅
  end.

(** Decoded values that hold no list and no foreign object. *)
Fixpoint list_free (obj : pyobj) : bool :=
  match obj with
  | PyList _ | PyOpaque _ => false
  | PyDict items => forallb (λ item, list_free item.2) items
  | _ => true
  end.

(** * Properties *)

(** ** The merge operator *)

Section node_add_facts.
Implicit Types (a b x : node) (f : gmap string field) (ks : gset string).

Lemma collect_lookup (m : gmap string (result exn field)) m' key :
  collect m = Ok m' → m' !! key = m !! key ≫= to_option.
Proof.
  unfold collect. case_bool_decide; [|done].
  intros [= <-]. by rewrite lookup_omap.
Qed.

Lemma collect_is_Ok (m : gmap string (result exn field)) :
  is_Ok (collect m) = true ↔ ∀ key r, m !! key = Some r → is_Ok r = true.
Proof.
  unfold collect. case_bool_decide as H; simpl.
  - split; [intros _|done]. exact H.
  - split; [done|]. intros H'. destruct H. exact H'.
Qed.

Lemma ObjectNode_add_fields_lookup add f1 f2 f3 key :
  ObjectNode_add_fields add f1 f2 = Ok f3 →
  f3 !! key = add_entry add (f1 !! key) (f2 !! key) ≫= to_option.
Proof.
  unfold ObjectNode_add_fields.
  destruct (collect _) as [shared|] eqn:Hc; [|done].
  intros [= <-]. rewrite lookup_union, (collect_lookup _ _ _ Hc).
  rewrite map_lookup_imap, lookup_fmap, lookup_difference.
  destruct (f1 !! key) as [v|], (f2 !! key) as [o|]; simpl; try done.
  by destruct (_ ≫= _).
Qed.

Lemma ObjectNode_add_fields_is_Ok add f1 f2 :
  is_Ok (ObjectNode_add_fields add f1 f2) = true ↔
  ∀ key v o, f1 !! key = Some v → f2 !! key = Some o →
             is_Ok (add v o.1.1) = true.
Proof.
  unfold ObjectNode_add_fields.
  destruct (collect _) as [shared|] eqn:Hc; simpl.
  - split; [intros _|done]. intros key v o Hv Ho.
    assert (is_Ok (collect (map_imap (λ key value,
      Some (match f2 !! key with
            | Some o => n ← add value o.1.1;
                        Ok (n, value.1.2 || o.1.2, value.2 || o.2)
            | None => Ok (value.1.1, true, value.2)
            end)) f1)) = true) as H by (by rewrite Hc).
    rewrite collect_is_Ok in H.
    specialize (H key (n ← add v o.1.1; Ok (n, v.1.2 || o.1.2, v.2 || o.2))).
    rewrite map_lookup_imap, Hv in H. simpl in H. rewrite Ho in H.
    specialize (H eq_refl). by destruct (add v o.1.1).
  - split; [done|]. intros H.
    assert (is_Ok (collect (map_imap (λ key value,
      Some (match f2 !! key with
            | Some o => n ← add value o.1.1;
                        Ok (n, value.1.2 || o.1.2, value.2 || o.2)
            | None => Ok (value.1.1, true, value.2)
            end)) f1)) = true) as H'; [|by rewrite Hc in H'].
    apply collect_is_Ok. intros key r. rewrite map_lookup_imap.
    destruct (f1 !! key) as [v|] eqn:Hv; simpl; [|done].
    intros [= <-]. destruct (f2 !! key) as [o|] eqn:Ho; [|done].
    specialize (H key v o Hv Ho). by destruct (add v o.1.1).
Qed.

End node_add_facts.

Lemma node_add_ObjectNode f1 f2 :
  node_add (ObjectNode f1) (ObjectNode f2) =
  new_fields ← ObjectNode_add_fields (λ value n, node_add value.1.1 n) f1 f2;
  Ok (ObjectNode new_fields).
Proof. simpl. by destruct (ObjectNode_add_fields _ _ _). Qed.

(** A shared field whose nodes do not merge makes the record merge raise. *)
Lemma ObjectNode_add_raises f1 f2 key n1 o1 u1 n2 o2 u2 :
  f1 !! key = Some (n1, o1, u1) → f2 !! key = Some (n2, o2, u2) →
  node_add n1 n2 = Raise TypeError →
  node_add (ObjectNode f1) (ObjectNode f2) = Raise TypeError.
Proof.
  intros H1 H2 Hn. rewrite node_add_ObjectNode.
  destruct (ObjectNode_add_fields _ _ _) as [f3|[]] eqn:H; [|done].
  assert (is_Ok (ObjectNode_add_fields (λ value n, node_add value.1.1 n) f1 f2)
          = true) as Hok by (by rewrite H).
  rewrite ObjectNode_add_fields_is_Ok in Hok.
  specialize (Hok _ _ _ H1 H2). simpl in Hok. by rewrite Hn in Hok.
Qed.

(** C6: merging two Record nodes whose shared fields merge yields a Record
    over the union of the field names; a field of both sides holds the merge
    of the two nodes, with [optional] and [nullable] each the OR of the two
    sides; a field of one side only is carried over with [optional] set and
    its [nullable] unchanged. *)
Theorem ObjectNode_add_field_union f1 f2 :
  (∀ key n1 o1 u1 n2 o2 u2,
     f1 !! key = Some (n1, o1, u1) → f2 !! key = Some (n2, o2, u2) →
     is_Ok (node_add n1 n2) = true) →
  ∃ f3,
    node_add (ObjectNode f1) (ObjectNode f2) = Ok (ObjectNode f3)
    ∧ dom f3 = dom f1 ∪ dom f2
    ∧ (∀ key n1 o1 u1 n2 o2 u2,
         f1 !! key = Some (n1, o1, u1) → f2 !! key = Some (n2, o2, u2) →
         ∃ n, node_add n1 n2 = Ok n
              ∧ f3 !! key = Some (n, o1 || o2, u1 || u2))
    ∧ (∀ key n1 o1 u1,
         f1 !! key = Some (n1, o1, u1) → f2 !! key = None →
         f3 !! key = Some (n1, true, u1))
    ∧ (∀ key n2 o2 u2,
         f1 !! key = None → f2 !! key = Some (n2, o2, u2) →
         f3 !! key = Some (n2, true, u2)).
Proof.
  intros Hshared. rewrite node_add_ObjectNode.
  destruct (ObjectNode_add_fields _ _ _) as [f3|[]] eqn:H.
  - exists f3. split; [done|].
    pose proof (λ key, ObjectNode_add_fields_lookup _ _ _ _ key H) as Hl.
    assert (∀ key n1 o1 u1 n2 o2 u2,
      f1 !! key = Some (n1, o1, u1) → f2 !! key = Some (n2, o2, u2) →
      ∃ n, node_add n1 n2 = Ok n ∧ f3 !! key = Some (n, o1 || o2, u1 || u2))
      as Hboth.
    { intros key n1 o1 u1 n2 o2 u2 H1 H2. rewrite Hl, H1, H2. simpl.
      specialize (Hshared _ _ _ _ _ _ _ H1 H2).
      destruct (node_add n1 n2) as [n|]; [|done]. by exists n. }
    assert (∀ key n1 o1 u1, f1 !! key = Some (n1, o1, u1) → f2 !! key = None →
      f3 !! key = Some (n1, true, u1)) as Hleft.
    { intros key n1 o1 u1 H1 H2. by rewrite Hl, H1, H2. }
    assert (∀ key n2 o2 u2, f1 !! key = None → f2 !! key = Some (n2, o2, u2) →
      f3 !! key = Some (n2, true, u2)) as Hright.
    { intros key n2 o2 u2 H1 H2. by rewrite Hl, H1, H2. }
    repeat split; try done.
    apply set_eq. intros key. rewrite elem_of_union, !elem_of_dom.
    destruct (f1 !! key) as [[[n1 o1] u1]|] eqn:H1,
             (f2 !! key) as [[[n2 o2] u2]|] eqn:H2.
    + destruct (Hboth _ _ _ _ _ _ _ H1 H2) as (n & _ & ->). split; eauto.
    + rewrite (Hleft _ _ _ _ H1 H2). split; eauto.
    + rewrite (Hright _ _ _ _ H1 H2). split; eauto.
    + rewrite Hl, H1, H2. simpl.
      split; [intros [? ?]; done | intros [[? ?]|[? ?]]; done].
  - assert (is_Ok (ObjectNode_add_fields (λ value n, node_add value.1.1 n) f1 f2)
            = true) as Hok; [|by rewrite H in Hok].
    apply ObjectNode_add_fields_is_Ok. intros key [[n1 o1] u1] [[n2 o2] u2].
    apply Hshared.
Qed.

(** An instance with one shared and two one-sided fields. *)
Lemma ObjectNode_add_field_union_witness :
  let f1 : gmap string field :=
    {[ "a" := (NumberNode false, false, false); "b" := (NullNode, false, true) ]} in
  let f2 : gmap string field :=
    {[ "b" := (StringNode {[ "s" := 1 ]}, false, false);
       "c" := (BooleanNode, true, false) ]} in
  ∃ f3,
    node_add (ObjectNode f1) (ObjectNode f2) = Ok (ObjectNode f3)
    ∧ dom f3 = {[ "a"; "b"; "c" ]}
    ∧ f3 !! "a" = Some (NumberNode false, true, false)
    ∧ f3 !! "b" = Some (StringNode {[ "s" := 1 ]}, false, true)
    ∧ f3 !! "c" = Some (BooleanNode, true, false).
Proof.
  intros f1 f2.
  destruct (ObjectNode_add_field_union f1 f2) as (f3 & H & Hdom & Hb & Hl & Hr).
  { intros key n1 o1 u1 n2 o2 u2 H1 H2.
    destruct (decide (key = "b")) as [->|Hne].
    - vm_compute in H1, H2. injection H1 as <- <- <-. injection H2 as <- <- <-.
      reflexivity.
    - unfold f2 in H2. rewrite lookup_insert_ne in H2 by done.
      apply lookup_singleton_Some in H2 as [<- _]. vm_compute in H1. discriminate. }
  exists f3. split; [exact H|]. split; [rewrite Hdom; vm_compute; reflexivity|].
  split; [apply (Hl "a" _ false); reflexivity|].
  split; [|apply (Hr "c" _ true); reflexivity].
  destruct (Hb "b" NullNode false true (StringNode {[ "s" := 1 ]}) false false)
    as (n & Hn & ->); [reflexivity..|].
  vm_compute in Hn. by injection Hn as <-.
Defined.

(** [AnyNode] on the left hands back the other operand. *)
Lemma AnyNode_add_l x : node_add AnyNode x = Ok x.
Proof. done. Qed.

(** [NullNode] on the left hands back the other operand, itself for
    [AnyNode]. *)
Lemma NullNode_add_l x :
  node_add NullNode x = Ok (if isinstance_AnyNode x then NullNode else x).
Proof. by destruct x. Qed.

(** With any operand that is not a [KeyIndexedArrayNode] on the left,
    [AnyNode] and [NullNode] on the right are served by their [__radd__]. *)
Lemma AnyNode_add_r x : t x ≠ KEY_INDEXED_ARRAY → node_add x AnyNode = Ok x.
Proof. by destruct x. Qed.

Lemma NullNode_add_r x :
  t x ≠ KEY_INDEXED_ARRAY → t x ≠ ANY → node_add x NullNode = Ok x.
Proof. by destruct x. Qed.

(** [KeyIndexedArrayNode.__add__] never answers [NotImplemented]: with an
    operand of another class it adds its conversion to an [ObjectNode]. *)
Lemma KeyIndexedArrayNode_add_other ks e b :
  t b ≠ KEY_INDEXED_ARRAY →
  node_add (KeyIndexedArrayNode ks e) b = node_add (to_object_node ks e) b.
Proof.
  intros Hb. destruct b; try done.
  unfold to_object_node. rewrite node_add_ObjectNode. simpl.
  assert (ObjectNode_add_fields (λ _ n, node_add e n)
            (to_object_node_fields ks e) fields
          = ObjectNode_add_fields (λ value n, node_add value.1.1 n)
              (to_object_node_fields ks e) fields) as ->;
    [|by destruct (ObjectNode_add_fields _ _ _)].
  unfold ObjectNode_add_fields. f_equal. f_equal.
  apply map_imap_ext. intros key. unfold to_object_node_fields.
  rewrite lookup_gset_to_gmap. by destruct (guard _) as [?|].
Qed.

(** The element merge of two [KeyIndexedArrayNode]s decides the outcome:
    when it raises, the whole merge raises. *)
Lemma KeyIndexedArrayNode_add_raises ks1 e1 ks2 e2 :
  node_add e1 e2 = Raise TypeError →
  node_add (KeyIndexedArrayNode ks1 e1) (KeyIndexedArrayNode ks2 e2)
  = Raise TypeError.
Proof. intros H. simpl. by rewrite H. Qed.

Lemma KeyIndexedArrayNode_add_Ok ks1 e1 ks2 e2 v :
  node_add e1 e2 = Ok v →
  node_add (KeyIndexedArrayNode ks1 e1) (KeyIndexedArrayNode ks2 e2)
  = Ok (KeyIndexedArrayNode (ks1 ∪ ks2) v).
Proof. intros H. simpl. by rewrite H. Qed.

(** C2: two Map nodes whose elements do not merge.  The merge raises
    although the Record forms of the two operands merge. *)
Theorem KeyIndexedArrayNode_add_no_fallback :
  let a := KeyIndexedArrayNode {[ "x" ]} (NumberNode false) in
  let b := KeyIndexedArrayNode {[ "y" ]} (StringNode {[ "s" := 1 ]}) in
  node_add (NumberNode false) (StringNode {[ "s" := 1 ]}) = Raise TypeError
  ∧ node_add a b = Raise TypeError
  ∧ node_add (to_object_node {[ "x" ]} (NumberNode false))
             (to_object_node {[ "y" ]} (StringNode {[ "s" := 1 ]}))
    = Ok (ObjectNode {[ "x" := (NumberNode false, true, false);
                        "y" := (StringNode {[ "s" := 1 ]}, true, false) ]})
  ∧ infer (PyList [PyDict [("x", PyInt 1)]; PyDict [("y", PyStr "s")]])
    = Raise (new (IncompatibleNodesError [a; b])).
Proof. repeat split; vm_compute; reflexivity. Qed.

(** ** Merging nodes that hold no key-indexed array *)

Lemma plain_ObjectNode f :
  plain (ObjectNode f) = true ↔ ∀ key v, f !! key = Some v → plain v.1.1 = true.
Proof.
  simpl. apply (map_fold_weak_ind (λ r m, r = true ↔ ∀ key v, m !! key = Some v → plain v.1.1 = true)).
  - split; [|done]. intros _ key v. by rewrite lookup_empty.
  - intros i x m r Hi IH. rewrite andb_true_iff, IH. split.
    + intros [Hx Hm] key v. rewrite lookup_insert. case_decide; [by intros [= <-]|apply Hm].
    + intros H. split; [apply (H i); by rewrite lookup_insert_eq|].
      intros key v Hk. apply (H key). rewrite lookup_insert_ne; [done|]. intros ->. congruence.
Qed.

Lemma node_size_field f key v :
  f !! key = Some v → (node_size v.1.1 < node_size (ObjectNode f))%nat.
Proof.
  simpl. revert key v.
  apply (map_fold_weak_ind (λ r m, ∀ key v, m !! key = Some v → (node_size v.1.1 < S r)%nat)).
  - intros key v. by rewrite lookup_empty.
  - intros i x m r Hi IH key v. rewrite lookup_insert. case_decide.
    + intros [= <-]. lia.
    + intros H'. specialize (IH _ _ H'). lia.
Qed.

Lemma result_exn_ext {A} (r1 r2 : result exn A) :
  (∀ x, r1 = Ok x ↔ r2 = Ok x) → r1 = r2.
Proof.
  intros H. destruct r1 as [x|[]], r2 as [y|[]]; try done.
  - by apply H.
  - by destruct (proj1 (H x) eq_refl).
  - by destruct (proj2 (H y) eq_refl).
Qed.

Lemma Counter_add_positive c d : positive_counts (Counter_add c d).
Proof.
  intros key count. unfold Counter_add. rewrite lookup_merge.
  destruct (c !! key) as [x|], (d !! key) as [y|]; simpl; try done;
    case_match; try done; intros [= <-]; lia.
Qed.

Lemma Counter_add_comm c d : Counter_add c d = Counter_add d c.
Proof.
  apply map_eq. intros key. unfold Counter_add. rewrite !lookup_merge.
  destruct (c !! key) as [x|], (d !! key) as [y|]; simpl; try done.
  - by rewrite (Z.add_comm x y).
  - by rewrite Z.add_0_r.
  - by rewrite Z.add_0_r.
Qed.

Lemma Counter_add_assoc c1 c2 c3 :
  positive_counts c1 → positive_counts c2 → positive_counts c3 →
  Counter_add (Counter_add c1 c2) c3 = Counter_add c1 (Counter_add c2 c3).
Proof.
  intros H1 H2 H3. apply map_eq. intros key. unfold Counter_add.
  rewrite !lookup_merge.
  pose proof (H1 key) as P1. pose proof (H2 key) as P2. pose proof (H3 key) as P3.
  destruct (c1 !! key) as [x|], (c2 !! key) as [y|], (c3 !! key) as [z|]; simpl;
    try specialize (P1 _ eq_refl); try specialize (P2 _ eq_refl);
    try specialize (P3 _ eq_refl); simpl in *;
    repeat (case_match; simpl in *; try lia; try done);
    try (f_equal; lia).
Qed.

Lemma ObjectNode_add_fields_Ok_iff add f1 f2 f3 :
  ObjectNode_add_fields add f1 f2 = Ok f3 ↔
  ∀ key, add_entry add (f1 !! key) (f2 !! key) = Ok <$> f3 !! key.
Proof.
  split.
  - intros H key. rewrite (ObjectNode_add_fields_lookup _ _ _ _ key H).
    assert (is_Ok (ObjectNode_add_fields add f1 f2) = true) as Hok
      by (by rewrite H).
    rewrite ObjectNode_add_fields_is_Ok in Hok.
    destruct (f1 !! key) as [v|] eqn:H1, (f2 !! key) as [o|] eqn:H2; simpl; try done.
    specialize (Hok _ _ _ H1 H2). by destruct (add v o.1.1).
  - intros H.
    destruct (ObjectNode_add_fields add f1 f2) as [f3'|[]] eqn:Hadd.
    + f_equal. apply map_eq. intros key.
      rewrite (ObjectNode_add_fields_lookup _ _ _ _ key Hadd), H.
      by destruct (f3 !! key).
    + assert (is_Ok (ObjectNode_add_fields add f1 f2) = true) as Hok;
        [|by rewrite Hadd in Hok].
      apply ObjectNode_add_fields_is_Ok. intros key v o H1 H2.
      specialize (H key). rewrite H1, H2 in H. simpl in H.
      destruct (add v o.1.1); [done|]. by destruct (f3 !! key).
Qed.

Lemma ObjectNode_add_fields_l add f1 f2 f3 g :
  (f12 ← ObjectNode_add_fields add f1 f2; ObjectNode_add_fields add f12 f3) = Ok g ↔
  ∀ key, add_entry_l add (f1 !! key) (f2 !! key) (f3 !! key) = Ok <$> g !! key.
Proof.
  unfold add_entry_l. split.
  - destruct (ObjectNode_add_fields add f1 f2) as [f12|] eqn:H12; simpl; [|done].
    rewrite ObjectNode_add_fields_Ok_iff in H12.
    rewrite ObjectNode_add_fields_Ok_iff. intros H key.
    rewrite H12, <-H. by destruct (f12 !! key).
  - intros H.
    assert (∃ f12, ObjectNode_add_fields add f1 f2 = Ok f12) as [f12 H12].
    { destruct (ObjectNode_add_fields add f1 f2) as [f12|[]] eqn:Hadd; [by eexists|].
      assert (is_Ok (ObjectNode_add_fields add f1 f2) = true) as Hok;
        [|by rewrite Hadd in Hok].
      apply ObjectNode_add_fields_is_Ok. intros key v o H1 H2.
      specialize (H key). rewrite H1, H2 in H. simpl in H.
      destruct (add v o.1.1); [done|]. by destruct (g !! key). }
    rewrite H12. simpl. apply ObjectNode_add_fields_Ok_iff. intros key.
    rewrite ObjectNode_add_fields_Ok_iff in H12.
    rewrite <-H, H12. by destruct (f12 !! key).
Qed.

Lemma ObjectNode_add_fields_r add f1 f2 f3 g :
  (f23 ← ObjectNode_add_fields add f2 f3; ObjectNode_add_fields add f1 f23) = Ok g ↔
  ∀ key, add_entry_r add (f1 !! key) (f2 !! key) (f3 !! key) = Ok <$> g !! key.
Proof.
  unfold add_entry_r. split.
  - destruct (ObjectNode_add_fields add f2 f3) as [f23|] eqn:H23; simpl; [|done].
    rewrite ObjectNode_add_fields_Ok_iff in H23.
    rewrite ObjectNode_add_fields_Ok_iff. intros H key.
    rewrite H23, <-H. by destruct (f23 !! key).
  - intros H.
    assert (∃ f23, ObjectNode_add_fields add f2 f3 = Ok f23) as [f23 H23].
    { destruct (ObjectNode_add_fields add f2 f3) as [f23|[]] eqn:Hadd; [by eexists|].
      assert (is_Ok (ObjectNode_add_fields add f2 f3) = true) as Hok;
        [|by rewrite Hadd in Hok].
      apply ObjectNode_add_fields_is_Ok. intros key v o H1 H2.
      specialize (H key). rewrite H1, H2 in H. simpl in H.
      destruct (add v o.1.1); [done|]. by destruct (g !! key). }
    rewrite H23. simpl. apply ObjectNode_add_fields_Ok_iff. intros key.
    rewrite ObjectNode_add_fields_Ok_iff in H23.
    rewrite <-H, H23. by destruct (f23 !! key).
Qed.

Lemma node_add_ArrayNode e1 e2 :
  node_add (ArrayNode e1) (ArrayNode e2) = v ← node_add e1 e2; Ok (ArrayNode v).
Proof. simpl. by destruct (node_add e1 e2). Qed.

Lemma plain_StringNode c : plain (StringNode c) = true ↔ positive_counts c.
Proof. simpl. apply bool_decide_eq_true. Qed.

(** Merging plain nodes yields a plain node. *)
Lemma plain_node_add_size n :
  ∀ a b r, (node_size a < n)%nat → plain a = true → plain b = true →
           node_add a b = Ok r → plain r = true.
Proof.
  induction n as [|n IH]; [lia|].
  intros a b r Hn Ha Hb.
  destruct a as [ | | |cf1|c1|f1|e1|ks1 e1], b as [ | | |cf2|c2|f2|e2|ks2 e2];
    try discriminate Ha; try discriminate Hb;
    try (simpl; intros [= <-]; done).
  - intros [= <-]. apply plain_StringNode, Counter_add_positive.
  - rewrite node_add_ObjectNode.
    destruct (ObjectNode_add_fields _ f1 f2) as [f3|] eqn:H3; simpl; [|done].
    intros [= <-]. rewrite ObjectNode_add_fields_Ok_iff in H3.
    rewrite plain_ObjectNode in Ha, Hb. apply plain_ObjectNode.
    intros key v Hv. specialize (H3 key). rewrite Hv in H3. simpl in H3.
    destruct (f1 !! key) as [v1|] eqn:H1, (f2 !! key) as [v2|] eqn:H2;
      simpl in H3; try done.
    + destruct (node_add v1.1.1 v2.1.1) as [n12|] eqn:H12; simpl in H3; [|done].
      injection H3 as <-. simpl.
      apply (IH v1.1.1 v2.1.1); [|by apply (Ha key)|by apply (Hb key)|done].
      pose proof (node_size_field _ _ _ H1). lia.
    + injection H3 as <-. simpl. by apply (Ha key).
    + injection H3 as <-. simpl. by apply (Hb key).
  - rewrite node_add_ArrayNode.
    destruct (node_add e1 e2) as [v|] eqn:H12; simpl; [|done].
    intros [= <-]. simpl in *. apply (IH e1 e2); [lia|done..].
Qed.

Lemma plain_node_add a b r :
  plain a = true → plain b = true → node_add a b = Ok r → plain r = true.
Proof. apply (plain_node_add_size (S (node_size a))). lia. Qed.

Lemma node_add_comm_size n :
  ∀ a b, (node_size a + node_size b < n)%nat → plain a = true → plain b = true →
         node_add a b = node_add b a.
Proof.
  induction n as [|n IH]; [lia|].
  intros a b Hn Ha Hb.
  destruct a as [ | | |cf1|c1|f1|e1|ks1 e1], b as [ | | |cf2|c2|f2|e2|ks2 e2];
    try discriminate Ha; try discriminate Hb; try done.
  - simpl. by rewrite orb_comm.
  - simpl. by rewrite Counter_add_comm.
  - rewrite !node_add_ObjectNode.
    assert (ObjectNode_add_fields field_add f1 f2
            = ObjectNode_add_fields field_add f2 f1) as ->; [|done].
    apply result_exn_ext. intros f3. rewrite !ObjectNode_add_fields_Ok_iff.
    rewrite plain_ObjectNode in Ha, Hb.
    assert (∀ key, add_entry field_add (f1 !! key) (f2 !! key)
                   = add_entry field_add (f2 !! key) (f1 !! key)) as Hsym.
    { intros key.
      destruct (f1 !! key) as [v1|] eqn:H1, (f2 !! key) as [v2|] eqn:H2;
        simpl; try done.
      rewrite (IH v1.1.1 v2.1.1), (orb_comm v1.1.2), (orb_comm v1.2);
        [done| |by apply (Ha key)|by apply (Hb key)].
      pose proof (node_size_field _ _ _ H1).
      pose proof (node_size_field _ _ _ H2). lia. }
    split; intros H key; [by rewrite <-Hsym|by rewrite Hsym].
  - rewrite !node_add_ArrayNode. simpl in *. rewrite (IH e1 e2); [done|lia|done..].
Qed.

(** Merge is commutative on plain nodes. *)
Lemma node_add_comm a b :
  plain a = true → plain b = true → node_add a b = node_add b a.
Proof. apply (node_add_comm_size (S (node_size a + node_size b))). lia. Qed.

Ltac crunch_add :=
  simpl;
  repeat match goal with
         | |- context [ObjectNode_add_fields ?f ?x ?y] =>
             destruct (ObjectNode_add_fields f x y) as [?|[]]; simpl
         | |- context [node_add ?x ?y] =>
             destruct (node_add x y) as [?|[]]; simpl
         end;
  try done.

Lemma node_add_assoc_size n :
  ∀ a b c, (node_size a + node_size b + node_size c < n)%nat →
           plain a = true → plain b = true → plain c = true →
           (r ← node_add a b; node_add r c) = (r ← node_add b c; node_add a r).
Proof.
  induction n as [|n IH]; [lia|].
  intros a b c Hn Ha Hb Hc.
  destruct a as [ | | |cf1|c1|f1|e1|ks1 e1], b as [ | | |cf2|c2|f2|e2|ks2 e2],
           c as [ | | |cf3|c3|f3|e3|ks3 e3];
    try discriminate Ha; try discriminate Hb; try discriminate Hc.
  all: try (crunch_add; fail).
  - simpl. by rewrite orb_assoc.
  - simpl. rewrite Counter_add_assoc; [done|by apply plain_StringNode..].
  - rewrite !node_add_ObjectNode.
    assert ((f12 ← ObjectNode_add_fields field_add f1 f2;
             ObjectNode_add_fields field_add f12 f3)
            = (f23 ← ObjectNode_add_fields field_add f2 f3;
               ObjectNode_add_fields field_add f1 f23)) as Hfields.
    { apply result_exn_ext. intros g.
      rewrite ObjectNode_add_fields_l, ObjectNode_add_fields_r.
      rewrite plain_ObjectNode in Ha, Hb, Hc.
      assert (∀ key,
        add_entry_l field_add (f1 !! key) (f2 !! key) (f3 !! key)
        = add_entry_r field_add (f1 !! key) (f2 !! key) (f3 !! key)) as Hkey.
      { intros key. unfold add_entry_l, add_entry_r.
        destruct (f1 !! key) as [[[n1 o1] u1]|] eqn:H1,
                 (f2 !! key) as [[[n2 o2] u2]|] eqn:H2,
                 (f3 !! key) as [[[n3 o3] u3]|] eqn:H3; simpl; try done.
        - assert ((r ← node_add n1 n2; node_add r n3)
                  = (r ← node_add n2 n3; node_add n1 r)) as Hnodes.
          { apply IH; [|by apply (Ha key _ H1)|by apply (Hb key _ H2)
                        |by apply (Hc key _ H3)].
            pose proof (node_size_field _ _ _ H1).
            pose proof (node_size_field _ _ _ H2).
            pose proof (node_size_field _ _ _ H3). simpl in *. lia. }
          destruct (node_add n1 n2) as [n12|[]], (node_add n2 n3) as [n23|[]];
            simpl in *.
          + by rewrite Hnodes, !orb_assoc.
          + by rewrite Hnodes.
          + by rewrite <-Hnodes.
          + done.
        - destruct (node_add n1 n2) as [n12|[]]; simpl; [|done].
          by rewrite orb_true_r.
        - by rewrite orb_true_r.
        - by destruct (node_add n2 n3) as [n23|[]]. }
      split; intros H key; [by rewrite <-Hkey|by rewrite Hkey]. }
    destruct (ObjectNode_add_fields field_add f1 f2) as [f12|[]],
             (ObjectNode_add_fields field_add f2 f3) as [f23|[]]; simpl in *;
      rewrite ?node_add_ObjectNode.
    + by rewrite Hfields.
    + by rewrite Hfields.
    + by rewrite <-Hfields.
    + done.
  - assert ((r ← node_add e1 e2; node_add r e3)
            = (r ← node_add e2 e3; node_add e1 r)) as Hnodes.
    { simpl in *. apply IH; [lia|done..]. }
    rewrite !node_add_ArrayNode.
    destruct (node_add e1 e2) as [v12|[]], (node_add e2 e3) as [v23|[]];
      simpl in *; rewrite ?node_add_ArrayNode.
    + by rewrite Hnodes.
    + by rewrite Hnodes.
    + by rewrite <-Hnodes.
    + done.
Qed.

(** Merge is associative on plain nodes. *)
Lemma node_add_assoc a b c :
  plain a = true → plain b = true → plain c = true →
  (r ← node_add a b; node_add r c) = (r ← node_add b c; node_add a r).
Proof. apply (node_add_assoc_size (S (node_size a + node_size b + node_size c))). lia. Qed.

Lemma bind_swap {A B C} (ra : result exn A) (rb : result exn B)
    (k : A → B → result exn C) :
  (a ← ra; b ← rb; k a b) = (b ← rb; a ← ra; k a b).
Proof. by destruct ra as [a|[]], rb as [b|[]]. Qed.

Lemma bind_assoc {A B C} (r : result exn A) (f : A → result exn B)
    (g : B → result exn C) :
  (r ≫= f) ≫= g = r ≫= λ a, f a ≫= g.
Proof. by destruct r. Qed.

Lemma sum_app l1 l2 start :
  sum (l1 ++ l2) start = acc ← sum l1 start; sum l2 acc.
Proof.
  revert start. induction l1 as [|x l1 IH]; intros start; simpl; [done|].
  destruct (node_add start x) as [acc|]; simpl; [apply IH|done].
Qed.

Lemma plain_sum l start r :
  all_plain l → plain start = true → sum l start = Ok r → plain r = true.
Proof.
  intros Hl. revert start. induction Hl as [|x l Hx _ IH]; intros start Hs; simpl.
  - by intros [= <-].
  - destruct (node_add start x) as [acc|] eqn:Hacc; simpl; [|done].
    apply IH. by apply (plain_node_add start x).
Qed.

(** Folding from [start] is merging [start] with the fold from [AnyNode]. *)
Lemma sum_from l start :
  all_plain l → plain start = true →
  sum l start = r ← sum l AnyNode; node_add start r.
Proof.
  intros Hl. revert start. induction Hl as [|x l Hx Hl IH]; intros start Hs.
  - simpl. by destruct start.
  - simpl. rewrite (IH x Hx).
    transitivity (acc ← node_add start x; r ← sum l AnyNode; node_add acc r).
    { destruct (node_add start x) as [acc|] eqn:Hacc; simpl; [|done].
      apply IH. by apply (plain_node_add start x). }
    rewrite bind_swap, bind_assoc.
    destruct (sum l AnyNode) as [r|] eqn:Hr; simpl; [|done].
    apply node_add_assoc; [done..|]. by apply (plain_sum l AnyNode).
Qed.

Lemma reduce_sum g :
  all_plain (operands g) → reduce g = sum (operands g) AnyNode.
Proof.
  induction g as [n|l IHl r IHr]; simpl; [done|].
  intros [Hl Hr]%Forall_app. rewrite sum_app, IHl, IHr by done.
  destruct (sum (operands l) AnyNode) as [a|] eqn:Ha; simpl; [|done].
  symmetry. apply sum_from; [done|]. by apply (plain_sum (operands l) AnyNode).
Qed.

Lemma sum_Permutation l l' start :
  l ≡ₚ l' → all_plain l → plain start = true → sum l start = sum l' start.
Proof.
  intros Hperm. revert start.
  induction Hperm as [|x l l' _ IH|x y l|l l' l'' H1 IH1 H2 IH2];
    intros start Hl Hs.
  - done.
  - apply Forall_cons in Hl as [Hx Hl]. simpl.
    destruct (node_add start x) as [acc|] eqn:Hacc; simpl; [|done].
    apply IH; [done|]. by apply (plain_node_add start x).
  - apply Forall_cons in Hl as [Hy [Hx Hl]%Forall_cons]. simpl.
    rewrite <-!bind_assoc.
    by rewrite (node_add_assoc start y x), (node_add_assoc start x y),
      (node_add_comm y x).
  - rewrite IH1 by done. apply IH2; [|done].
    unfold all_plain. by rewrite <-H1.
Qed.

(** On plain nodes every grouping and every order of the operands reduce
    to the same result. *)
Lemma reduce_plain_any_grouping_any_order g1 g2 :
  all_plain (operands g1) → operands g1 ≡ₚ operands g2 →
  reduce g1 = reduce g2.
Proof.
  intros H1 Hperm.
  assert (all_plain (operands g2)) as H2 by (unfold all_plain; by rewrite <-Hperm).
  rewrite !reduce_sum by done. by apply sum_Permutation.
Qed.


(** C3: Map nodes merge to different results in different orders and
    groupings.  With [m1], [m2], [m3] the inferred shapes of
    [{"a": {"x": 1}}], [{}] and [{"b": {"y": 2}}], the two orders of [m1] and
    [m2] give different nodes, and of the two groupings of [m1; m2; m3] one
    raises and the other yields a node; so does [infer] on the arrays of
    these objects. *)
Theorem node_add_order_dependent :
  let m1 := KeyIndexedArrayNode {[ "a" ]}
              (KeyIndexedArrayNode {[ "x" ]} (NumberNode false)) in
  let m2 := KeyIndexedArrayNode ∅ AnyNode in
  let m3 := KeyIndexedArrayNode {[ "b" ]}
              (KeyIndexedArrayNode {[ "y" ]} (NumberNode false)) in
  let o1 := PyDict [("a", PyDict [("x", PyInt 1)])] in
  let o2 := PyDict [] in
  let o3 := PyDict [("b", PyDict [("y", PyInt 2)])] in
  (infer o1 = Ok m1 ∧ infer o2 = Ok m2 ∧ infer o3 = Ok m3)
  ∧ reduce (Pairwise (Operand m1) (Operand m2))
    = Ok (KeyIndexedArrayNode {[ "a" ]}
            (ObjectNode {[ "x" := (NumberNode false, false, false) ]}))
  ∧ reduce (Pairwise (Operand m2) (Operand m1)) = Ok m1
  ∧ reduce (Pairwise (Pairwise (Operand m1) (Operand m2)) (Operand m3))
    = Raise TypeError
  ∧ reduce (Pairwise (Operand m1) (Pairwise (Operand m2) (Operand m3)))
    = Ok (KeyIndexedArrayNode {[ "a"; "b" ]}
            (KeyIndexedArrayNode {[ "x"; "y" ]} (NumberNode false)))
  ∧ infer (PyList [o1; o2; o3])
    = Raise (new (IncompatibleNodesError [m1; m2; m3]))
  ∧ infer (PyList [o2; o1; o3])
    = Ok (ArrayNode (KeyIndexedArrayNode {[ "a"; "b" ]}
                       (KeyIndexedArrayNode {[ "x"; "y" ]} (NumberNode false)))).
Proof. repeat split; vm_compute; reflexivity. Qed.

(** C4: [NullNode] merged with [x].  On the left it yields [x] ([NullNode]
    for [AnyNode]); on the right a [KeyIndexedArrayNode] comes back as its
    [ObjectNode] conversion, every other node as itself ([NullNode] for
    [AnyNode]).  [infer] meets the case on [[[{"x": 1}], [null]]]. *)
Theorem NullNode_add_both_sides x :
  node_add NullNode x = Ok (if isinstance_AnyNode x then NullNode else x)
  ∧ node_add x NullNode
    = Ok match x with
         | AnyNode => NullNode
         | KeyIndexedArrayNode keys value_node => to_object_node keys value_node
         | _ => x
         end
  ∧ node_add (KeyIndexedArrayNode {[ "x" ]} (NumberNode false)) NullNode
    = Ok (ObjectNode {[ "x" := (NumberNode false, false, false) ]})
  ∧ infer (PyList [PyList [PyDict [("x", PyInt 1)]]; PyList [PyNone]])
    = Ok (ArrayNode (ArrayNode
            (ObjectNode {[ "x" := (NumberNode false, false, false) ]})))
  ∧ infer (PyList [PyList [PyNone]; PyList [PyDict [("x", PyInt 1)]]])
    = Ok (ArrayNode (ArrayNode
            (KeyIndexedArrayNode {[ "x" ]} (NumberNode false)))).
Proof.
  split; [apply NullNode_add_l|]. split; [by destruct x|].
  repeat split; vm_compute; reflexivity.
Qed.

(** C5: [AnyNode] merged with [x].  On the left it yields [x]; on the right
    a [KeyIndexedArrayNode] comes back as its [ObjectNode] conversion, every
    other node as itself.  [infer] meets the case on [[[{"x": 1}], []]]. *)
Theorem AnyNode_add_both_sides x :
  node_add AnyNode x = Ok x
  ∧ node_add x AnyNode
    = Ok match x with
         | KeyIndexedArrayNode keys value_node => to_object_node keys value_node
         | _ => x
         end
  ∧ node_add (KeyIndexedArrayNode {[ "x" ]} (NumberNode false)) AnyNode
    = Ok (ObjectNode {[ "x" := (NumberNode false, false, false) ]})
  ∧ infer (PyList [PyList [PyDict [("x", PyInt 1)]]; PyList []])
    = Ok (ArrayNode (ArrayNode
            (ObjectNode {[ "x" := (NumberNode false, false, false) ]})))
  ∧ infer (PyList [PyList []; PyList [PyDict [("x", PyInt 1)]]])
    = Ok (ArrayNode (ArrayNode
            (KeyIndexedArrayNode {[ "x" ]} (NumberNode false)))).
Proof.
  split; [done|]. split; [by destruct x|].
  repeat split; vm_compute; reflexivity.
Qed.

(** ** The classifier *)

(** C8: [tell] answers [FALSE] for both truth values. *)
Theorem tell_bool (b : bool) :
  JsonPrimitiveType.tell (PyBool b) = Ok JsonPrimitiveType.FALSE
  ∧ JsonPrimitiveType.tell (PyBool true) ≠ Ok JsonPrimitiveType.TRUE.
Proof. split; [done|discriminate]. Qed.

(** [infer] is not affected: both truth values give a [BooleanNode]. *)
Lemma infer_bool (b : bool) : infer (PyBool b) = Ok BooleanNode.
Proof. done. Qed.

(** ** [infer] on objects *)

(** C10: the empty object infers to a Map node with no keys and an [AnyNode]
    element. *)
Theorem infer_empty_object :
  infer (PyDict []) = Ok (KeyIndexedArrayNode ∅ AnyNode).
Proof. vm_compute. reflexivity. Qed.

Lemma infer_PyDict items :
  infer (PyDict items) = object_node ← infer_items infer items []; promote object_node.
Proof. done. Qed.

Lemma infer_PyList elems :
  infer (PyList elems) =
  children ← try_except (infer_elems infer elems)
               (λ e, Raise (under "ARRAY_ELEMENT" e));
  value_node ← try_except (sum children AnyNode)
                 (λ _, Raise (new (IncompatibleNodesError children)));
  Ok (ArrayNode value_node).
Proof. done. Qed.

(** Setting a key that the dictionary does not hold appends the item. *)
Lemma dict_setitem_fresh {V} key (value : V) d :
  key ∉ d.*1 → dict_setitem key value d = (d ++ [(key, value)])%list.
Proof.
  induction d as [|[k v] d IH]; simpl; [done|].
  rewrite not_elem_of_cons. intros [Hne Hd].
  rewrite bool_decide_eq_false_2 by done. by rewrite IH.
Qed.

(** With distinct keys the loop of the OBJECT case appends one fresh entry
    per item, in the order of the items. *)
Lemma infer_items_Ok items nodes object_node :
  NoDup (object_node.*1 ++ items.*1) →
  Forall2 (λ item n, infer item.2 = Ok n) items nodes →
  infer_items infer items object_node
  = Ok (object_node ++ zip items.*1 (fresh_field <$> nodes))%list.
Proof.
  intros Hnd Hall. revert object_node Hnd.
  induction Hall as [|[key value] n items nodes Hn _ IH]; intros object_node Hnd.
  - simpl. by rewrite app_nil_r.
  - simpl in *. rewrite Hn. simpl.
    apply NoDup_app in Hnd as (Hnd1 & Hnd2 & Hnd3).
    apply NoDup_cons in Hnd3 as [Hkey Hnd3].
    rewrite dict_setitem_fresh.
    + rewrite IH.
      * by rewrite <-app_assoc.
      * rewrite fmap_app. simpl. apply NoDup_app. split_and!.
        -- apply NoDup_app. split_and!; [done| |apply NoDup_singleton].
           intros k Hk ->%list_elem_of_singleton.
           apply (Hnd2 key Hk). left.
        -- intros k [Hk| ->%list_elem_of_singleton]%elem_of_app; [|done].
           intros Hk'. apply (Hnd2 k Hk). by right.
        -- done.
    + intros Hk. apply (Hnd2 key Hk). left.
Qed.

(** What the loop raises comes from one item, tagged with its key. *)
Lemma infer_items_Raise items object_node e :
  infer_items infer items object_node = Raise e →
  ∃ key value e', (key, value) ∈ items ∧ infer value = Raise e'
                  ∧ e = under key e'.
Proof.
  revert object_node. induction items as [|[key value] items IH];
    intros object_node; simpl; [done|].
  destruct (infer value) as [n|e'] eqn:Hv; simpl.
  - intros (k & v & e'' & Hin & H)%IH. exists k, v, e''. split; [by right|done].
  - intros [= <-]. exists key, value, e'. split; [left|done].
Qed.

Lemma infer_elems_Ok elems children :
  Forall2 (λ elem n, infer elem = Ok n) elems children →
  infer_elems infer elems = Ok children.
Proof.
  induction 1 as [|elem n elems children Hn _ IH]; simpl; [done|].
  by rewrite Hn, IH.
Qed.

Lemma infer_elems_Raise elems e :
  infer_elems infer elems = Raise e →
  ∃ elem, elem ∈ elems ∧ infer elem = Raise e.
Proof.
  induction elems as [|elem elems IH]; simpl; [done|].
  destruct (infer elem) as [n|e'] eqn:Hn; simpl.
  - destruct (infer_elems infer elems) as [ns|e'']; simpl; [done|].
    intros [= <-]. destruct IH as (x & Hx & H); [done|].
    exists x. split; [by right|done].
  - intros [= <-]. exists elem. split; [left|done].
Qed.

(** [promote] never raises: a failed fold is answered with the object node. *)
Lemma promote_eq object_node :
  promote object_node =
  Ok match sum ((λ tup : field, tup.1.1) <$> object_node.*2) AnyNode with
     | Ok value_node => KeyIndexedArrayNode (list_to_set object_node.*1) value_node
     | Raise _ => ObjectNode (list_to_map object_node)
     end.
Proof. unfold promote. by destruct (sum _ _). Qed.

(** C7: an object with distinct keys whose values all infer yields the Map
    node over its keys when the fold of the value nodes from [AnyNode]
    succeeds, and the Record node of its fields otherwise; [{"x": 1, "y": 2}]
    yields a Map with a Number element, [{"x": 1, "y": "s"}] a Record. *)
Theorem infer_object_map_or_record :
  (∀ items nodes,
     NoDup items.*1 →
     Forall2 (λ item n, infer item.2 = Ok n) items nodes →
     infer (PyDict items) =
     Ok match sum nodes AnyNode with
        | Ok value_node => KeyIndexedArrayNode (list_to_set items.*1) value_node
        | Raise _ =>
            ObjectNode (list_to_map (zip items.*1 (fresh_field <$> nodes)))
        end)
  ∧ infer (PyDict [("x", PyInt 1); ("y", PyInt 2)])
    = Ok (KeyIndexedArrayNode {[ "x"; "y" ]} (NumberNode false))
  ∧ infer (PyDict [("x", PyInt 1); ("y", PyStr "s")])
    = Ok (ObjectNode {[ "x" := (NumberNode false, false, false);
                        "y" := (StringNode {[ "s" := 1 ]}, false, false) ]}).
Proof.
  split; [|split; vm_compute; reflexivity].
  intros items nodes Hnd Hall.
  rewrite infer_PyDict, (infer_items_Ok items nodes []) by done. simpl.
  rewrite promote_eq.
  assert (length items.*1 = length (fresh_field <$> nodes)) as Hlen.
  { rewrite !length_fmap. by eapply Forall2_length. }
  rewrite fst_zip, snd_zip by lia.
  assert ((λ tup : field, tup.1.1) <$> (fresh_field <$> nodes) = nodes) as Heq;
    [|by rewrite Heq].
  clear. induction nodes as [|n nodes IH]; [done|]. by rewrite !fmap_cons, IH.
Qed.

(** An instance: a [null] value merges with the number, the object is a Map. *)
Lemma infer_object_map_or_record_witness :
  infer (PyDict [("x", PyInt 1); ("y", PyNone)])
  = Ok (KeyIndexedArrayNode {[ "x"; "y" ]} (NumberNode false)).
Proof.
  rewrite (proj1 infer_object_map_or_record
             [("x", PyInt 1); ("y", PyNone)] [NumberNode false; NullNode]).
  - vm_compute. reflexivity.
  - apply (bool_decide_unpack _). vm_compute. exact I.
  - repeat constructor.
Defined.

(** ** Failures and their location *)

(** C1 as stated fails: neither location holds an ["ARRAY_ELEMENT"]
    segment. *)
Lemma infer_array_merge_failure_untagged :
  (¬ ∃ e nodes,
       infer (PyList [PyInt 1; PyStr "a"]) = Raise e
       ∧ args e = IncompatibleNodesError nodes
       ∧ "ARRAY_ELEMENT" ∈ loc e)
  ∧ (¬ ∃ e,
       infer (PyDict [("a", PyDict [("b", PyList [PyBool true; PyInt 1])])])
       = Raise e
       ∧ loc e = ["a"; "b"; "ARRAY_ELEMENT"]).
Proof.
  split.
  - intros (e & nodes & H & _ & Hin). vm_compute in H. injection H as <-.
    simpl in Hin. by apply elem_of_nil in Hin.
  - intros (e & H & Hloc). vm_compute in H. injection H as <-.
    simpl in Hloc. discriminate.
Qed.

(** C1, amended: an array whose elements all infer but do not merge fails
    with [IncompatibleNodesError] carrying the element nodes, located at the
    array itself (empty location); only the enclosing containers add
    segments. *)
Theorem infer_array_merge_failure :
  (∀ elems children,
     Forall2 (λ elem n, infer elem = Ok n) elems children →
     sum children AnyNode = Raise TypeError →
     infer (PyList elems) = Raise (new (IncompatibleNodesError children)))
  ∧ infer (PyList [PyInt 1; PyStr "a"])
    = Raise {| args := IncompatibleNodesError
                         [NumberNode false; StringNode {[ "a" := 1 ]}];
               loc := [] |}
  ∧ infer (PyDict [("a", PyDict [("b", PyList [PyBool true; PyInt 1])])])
    = Raise {| args := IncompatibleNodesError [BooleanNode; NumberNode false];
               loc := ["a"; "b"] |}
  ∧ infer (PyList [PyList [PyInt 1; PyStr "a"]])
    = Raise {| args := IncompatibleNodesError
                         [NumberNode false; StringNode {[ "a" := 1 ]}];
               loc := ["ARRAY_ELEMENT"] |}.
Proof.
  split; [|repeat split; vm_compute; reflexivity].
  intros elems children Hall Hsum.
  rewrite infer_PyList, (infer_elems_Ok _ _ Hall). simpl. by rewrite Hsum.
Qed.

(** An instance: a string and an array do not merge. *)
Lemma infer_array_merge_failure_witness :
  infer (PyList [PyStr "s"; PyList []])
  = Raise (new (IncompatibleNodesError
                  [StringNode {[ "s" := 1 ]}; ArrayNode AnyNode])).
Proof.
  apply (proj1 infer_array_merge_failure).
  - repeat constructor.
  - vm_compute. reflexivity.
Defined.

(** Induction on decoded values, through the items of dictionaries and the
    elements of lists. *)
Lemma pyobj_nested_ind (P : pyobj → Prop) :
  P PyNone → (∀ b, P (PyBool b)) → (∀ n, P (PyInt n)) →
  (∀ m e, P (PyFloat m e)) → (∀ s, P (PyStr s)) →
  (∀ items, Forall (λ item, P item.2) items → P (PyDict items)) →
  (∀ elems, Forall P elems → P (PyList elems)) →
  (∀ name, P (PyOpaque name)) →
  ∀ obj, P obj.
Proof.
  intros HNone HBool HInt HFloat HStr HDict HList HOpaque.
  fix IH 1. intros [ |b|n|m e|s|items|elems|name].
  - exact HNone.
  - apply HBool.
  - apply HInt.
  - apply HFloat.
  - apply HStr.
  - apply HDict. induction items as [|[key value] items IHitems];
      constructor; [apply IH|apply IHitems].
  - apply HList. induction elems as [|elem elems IHelems];
      constructor; [apply IH|apply IHelems].
  - apply HOpaque.
Qed.

(** The location of a failure leads from the value given to [infer] to a
    value on which [infer] raises that error with an empty location. *)
Lemma infer_Raise_origin obj e :
  infer obj = Raise e →
  ∃ origin, origin ∈ descend (loc e) obj ∧ infer origin = Raise (new (args e)).
Proof.
  revert e. induction obj as [ |b|n|m ex|s|items IH|elems IH|name]
    using pyobj_nested_ind; intros e; try done.
  - rewrite infer_PyDict.
    destruct (infer_items infer items []) as [object_node|e'] eqn:Hitems; simpl.
    + by rewrite promote_eq.
    + intros [= <-].
      apply infer_items_Raise in Hitems as (key & value & e0 & Hin & Hv & ->).
      rewrite Forall_forall in IH.
      destruct (IH _ Hin e0 Hv) as (origin & Ho & Hr).
      exists origin. split; [|done]. simpl.
      apply list_elem_of_bind. exists value. split; [done|].
      apply list_elem_of_fmap. exists (key, value). split; [done|].
      by apply list_elem_of_filter.
  - rewrite infer_PyList.
    destruct (infer_elems infer elems) as [children|e'] eqn:Helems; simpl.
    + destruct (sum children AnyNode) as [v|[]] eqn:Hsum; simpl; [done|].
      intros [= <-]. exists (PyList elems). split; [simpl; left|].
      rewrite infer_PyList, Helems. simpl. by rewrite Hsum.
    + intros [= <-].
      apply infer_elems_Raise in Helems as (elem & Hin & He).
      rewrite Forall_forall in IH.
      destruct (IH _ Hin e' He) as (origin & Ho & Hr).
      exists origin. split; [|done]. simpl.
      apply list_elem_of_bind. by exists elem.
  - intros [= <-]. exists (PyOpaque name). split; [left|done].
Qed.

Lemma under_obj_eq parent_loc self (h : store) e :
  h !! self = Some e →
  under_obj parent_loc self h
  = Some (length h, (h ++ [under parent_loc e])%list).
Proof.
  intros Hself. unfold under_obj. rewrite Hself. simpl.
  rewrite (lookup_app_l_Some _ _ _ _ Hself). simpl.
  do 2 f_equal. apply list_eq. intros i.
  destruct (decide (i = length h)) as [->|Hne].
  - rewrite list_lookup_alter_eq, !lookup_app_r, Nat.sub_diag by lia. done.
  - rewrite list_lookup_alter_ne by done.
    destruct (decide (i < length h)%nat).
    + by rewrite !lookup_app_l by lia.
    + rewrite !lookup_app_r by lia.
      destruct (i - length h)%nat as [|j] eqn:Hj; [lia|done].
Qed.

(** Tagging along a path, innermost segment first, prepends the path. *)
Lemma loc_foldr_under path e :
  loc (foldr under e path) = (path ++ loc e)%list
  ∧ args (foldr under e path) = args e.
Proof. induction path as [|segment path [IHl IHa]]; simpl; [done|]. by rewrite IHl. Qed.

Lemma infer_elems_Ok_inv elems children :
  infer_elems infer elems = Ok children →
  Forall2 (λ elem n, infer elem = Ok n) elems children.
Proof.
  revert children. induction elems as [|elem elems IH]; intros children; simpl.
  - intros [= <-]. constructor.
  - destruct (infer elem) as [n|] eqn:Hn; simpl; [|done].
    destruct (infer_elems infer elems) as [ns|]; simpl; [|done].
    intros [= <-]. constructor; [done|]. by apply IH.
Qed.

(** The location of a failure leads to the value where it arose: a foreign
    object, or a list whose elements infer and do not merge; [infer] on that
    value raises the same error with an empty location. *)
Lemma infer_Raise_structural_origin obj e :
  infer obj = Raise e →
  ∃ origin,
    origin ∈ descend (loc e) obj
    ∧ infer origin = Raise (new (args e))
    ∧ match args e with
      | UnrecognizableTypeError o => o = origin ∧ ∃ name, origin = PyOpaque name
      | IncompatibleNodesError children =>
          ∃ elems, origin = PyList elems
                   ∧ Forall2 (λ elem n, infer elem = Ok n) elems children
                   ∧ sum children AnyNode = Raise TypeError
      end.
Proof.
  revert e. induction obj as [ |b|n|m ex|s|items IH|elems IH|name]
    using pyobj_nested_ind; intros e; try done.
  - rewrite infer_PyDict.
    destruct (infer_items infer items []) as [object_node|e'] eqn:Hitems; simpl.
    + by rewrite promote_eq.
    + intros [= <-].
      apply infer_items_Raise in Hitems as (key & value & e0 & Hin & Hv & ->).
      rewrite Forall_forall in IH.
      destruct (IH _ Hin e0 Hv) as (origin & Ho & Hr).
      exists origin. split; [|done]. simpl.
      apply list_elem_of_bind. exists value. split; [done|].
      apply list_elem_of_fmap. exists (key, value). split; [done|].
      by apply list_elem_of_filter.
  - rewrite infer_PyList.
    destruct (infer_elems infer elems) as [children|e'] eqn:Helems; simpl.
    + destruct (sum children AnyNode) as [v|[]] eqn:Hsum; simpl; [done|].
      intros [= <-]. exists (PyList elems). split; [simpl; left|].
      split.
      * rewrite infer_PyList, Helems. simpl. by rewrite Hsum.
      * simpl. exists elems. split_and!; [done| |done].
        by apply infer_elems_Ok_inv.
    + intros [= <-].
      apply infer_elems_Raise in Helems as (elem & Hin & He).
      rewrite Forall_forall in IH.
      destruct (IH _ Hin e' He) as (origin & Ho & Hr).
      exists origin. split; [|done]. simpl.
      apply list_elem_of_bind. by exists elem.
  - intros [= <-]. exists (PyOpaque name). split; [left|]. simpl. eauto.
Qed.

(** What an object and a list raise, frame by frame: the error of an item
    comes back tagged with its key, the error of an element tagged with
    ["ARRAY_ELEMENT"], and a failed fold of the elements is raised by the
    list itself. *)
Lemma infer_PyDict_Raise items e :
  infer (PyDict items) = Raise e →
  ∃ key value e', (key, value) ∈ items ∧ infer value = Raise e'
                  ∧ e = under key e'.
Proof.
  rewrite infer_PyDict.
  destruct (infer_items infer items []) as [object_node|e'] eqn:Hitems; simpl.
  - by rewrite promote_eq.
  - intros [= <-]. by apply infer_items_Raise in Hitems.
Qed.

Lemma infer_PyList_Raise elems e :
  infer (PyList elems) = Raise e →
  (∃ elem e', elem ∈ elems ∧ infer elem = Raise e'
              ∧ e = under "ARRAY_ELEMENT" e')
  ∨ (∃ children, Forall2 (λ elem n, infer elem = Ok n) elems children
                 ∧ sum children AnyNode = Raise TypeError
                 ∧ e = new (IncompatibleNodesError children)).
Proof.
  rewrite infer_PyList.
  destruct (infer_elems infer elems) as [children|e'] eqn:Helems; simpl.
  - destruct (sum children AnyNode) as [v|[]] eqn:Hsum; simpl; [done|].
    intros [= <-]. right. exists children. split_and!; [|done..].
    by apply infer_elems_Ok_inv.
  - intros [= <-]. left.
    apply infer_elems_Raise in Helems as (elem & Hin & He). by exists elem, e'.
Qed.

(** C9: [under] builds an error of the same class and arguments whose
    location is the segment followed by the location of the original; on the
    store it allocates a new object and leaves every existing object, the
    original included, as it was.  Every frame of [infer] tags what its
    children raise: an object with the key of the item, a list with
    ["ARRAY_ELEMENT"]; so the location reported at the top leads from the
    top-level value to the value where the failure arose, a foreign object
    or a list whose elements infer and do not merge, on which [infer] raises
    the same error with an empty location. *)
Theorem under_prepends_without_mutation :
  (∀ parent_loc e,
     loc (under parent_loc e) = parent_loc :: loc e
     ∧ args (under parent_loc e) = args e)
  ∧ (∀ parent_loc self (h : store) e,
       h !! self = Some e →
       ∃ new_error h',
         under_obj parent_loc self h = Some (new_error, h')
         ∧ new_error ≠ self
         ∧ h' !! new_error = Some (under parent_loc e)
         ∧ h' !! self = Some e
         ∧ ∀ r o, h !! r = Some o → h' !! r = Some o)
  ∧ (∀ path e, loc (foldr under e path) = (path ++ loc e)%list)
  ∧ (∀ items e,
       infer (PyDict items) = Raise e →
       ∃ key value e', (key, value) ∈ items ∧ infer value = Raise e'
                       ∧ e = under key e')
  ∧ (∀ elems e,
       infer (PyList elems) = Raise e →
       (∃ elem e', elem ∈ elems ∧ infer elem = Raise e'
                   ∧ e = under "ARRAY_ELEMENT" e')
       ∨ (∃ children, Forall2 (λ elem n, infer elem = Ok n) elems children
                      ∧ sum children AnyNode = Raise TypeError
                      ∧ e = new (IncompatibleNodesError children)))
  ∧ (∀ obj e,
       infer obj = Raise e →
       ∃ origin,
         origin ∈ descend (loc e) obj
         ∧ infer origin = Raise (new (args e))
         ∧ match args e with
           | UnrecognizableTypeError o =>
               o = origin ∧ ∃ name, origin = PyOpaque name
           | IncompatibleNodesError children =>
               ∃ elems, origin = PyList elems
                        ∧ Forall2 (λ elem n, infer elem = Ok n) elems children
                        ∧ sum children AnyNode = Raise TypeError
           end).
Proof.
  split; [done|]. split; [|split; [apply loc_foldr_under|]].
  - intros parent_loc self h e Hself.
    exists (length h), (h ++ [under parent_loc e])%list.
    split; [by apply under_obj_eq|].
    split; [apply lookup_lt_Some in Hself; lia|].
    split; [by rewrite lookup_app_r, Nat.sub_diag by lia|].
    split; [by apply lookup_app_l_Some|].
    intros r o. apply lookup_app_l_Some.
  - split; [apply infer_PyDict_Raise|].
    split; [apply infer_PyList_Raise|apply infer_Raise_structural_origin].
Qed.

(** An instance: tagging in a one-object store; the two frames that tag
    the failure of [{"a": {"b": [true, 1]}}]; and its origin, the list
    located at [["a"; "b"]]. *)
Lemma under_prepends_without_mutation_witness :
  let e := new (IncompatibleNodesError [BooleanNode; NumberNode false]) in
  let inner := PyDict [("b", PyList [PyBool true; PyInt 1])] in
  (∃ new_error h',
     under_obj "b" 0 [e] = Some (new_error, h')
     ∧ new_error ≠ 0%nat
     ∧ h' !! new_error = Some (under "b" e)
     ∧ h' !! 0%nat = Some e
     ∧ ∀ r o, [e] !! r = Some o → h' !! r = Some o)
  ∧ (∃ key value e', (key, value) ∈ [("a", inner)] ∧ infer value = Raise e'
                     ∧ under "a" (under "b" e) = under key e')
  ∧ ∃ origin,
      origin ∈ descend ["a"; "b"] (PyDict [("a", inner)])
      ∧ infer origin = Raise e
      ∧ ∃ elems, origin = PyList elems
                 ∧ Forall2 (λ elem n, infer elem = Ok n) elems
                     [BooleanNode; NumberNode false]
                 ∧ sum [BooleanNode; NumberNode false] AnyNode = Raise TypeError.
Proof.
  intros e inner. split; [|split].
  - apply (proj1 (proj2 under_prepends_without_mutation) "b" 0%nat [e] e).
    reflexivity.
  - apply (proj1 (proj2 (proj2 (proj2 under_prepends_without_mutation)))
             [("a", inner)] (under "a" (under "b" e))).
    vm_compute. reflexivity.
  - apply (proj2 (proj2 (proj2 (proj2 (proj2 under_prepends_without_mutation))))
             (PyDict [("a", inner)]) (under "a" (under "b" e))).
    vm_compute. reflexivity.
Defined.

(** * Further properties *)

(** ** The merge operator *)

(** X1: on nodes that hold no key-indexed array, merge is commutative. *)
Theorem node_add_plain_comm a b :
  plain a = true → plain b = true → node_add a b = node_add b a.
Proof. apply node_add_comm. Qed.

(** An instance on two records with a shared and a one-sided field. *)
Lemma node_add_plain_comm_witness :
  let a := ObjectNode {[ "k" := (NumberNode false, false, false);
                         "l" := (NullNode, false, true) ]} in
  let b := ObjectNode {[ "k" := (NumberNode true, true, false) ]} in
  node_add a b = node_add b a.
Proof. intros a b. apply (node_add_plain_comm a b); vm_compute; reflexivity. Defined.

(** X2: on nodes that hold no key-indexed array, merge is associative:
    both groupings of three operands give the same node or both raise. *)
Theorem node_add_plain_assoc a b c :
  plain a = true → plain b = true → plain c = true →
  (r ← node_add a b; node_add r c) = (r ← node_add b c; node_add a r).
Proof. apply node_add_assoc. Qed.

Lemma node_add_plain_assoc_witness :
  let a := ArrayNode (StringNode {[ "u" := 2 ]}) in
  let b := ArrayNode AnyNode in
  let c := ArrayNode (StringNode {[ "u" := 1; "v" := 1 ]}) in
  (r ← node_add a b; node_add r c) = (r ← node_add b c; node_add a r).
Proof. intros a b c. apply (node_add_plain_assoc a b c); vm_compute; reflexivity. Defined.

(** X3: on nodes that hold no key-indexed array and only positive counts,
    every grouping and every order of the same operands reduce to the same
    result. *)
Theorem reduce_plain_order_independent g1 g2 :
  all_plain (operands g1) → operands g1 ≡ₚ operands g2 →
  reduce g1 = reduce g2.
Proof. apply reduce_plain_any_grouping_any_order. Qed.

Lemma reduce_plain_order_independent_witness :
  let a := NumberNode false in
  let b := NullNode in
  let c := NumberNode true in
  reduce (Pairwise (Pairwise (Operand a) (Operand b)) (Operand c))
  = reduce (Pairwise (Operand c) (Pairwise (Operand a) (Operand b))).
Proof.
  intros a b c. apply reduce_plain_order_independent.
  - repeat constructor.
  - simpl. symmetry. exact (Permutation_cons_append [a; b] c).
Defined.

(** X4: merging two nodes that hold no key-indexed array never yields
    one, and the counts of the result are positive. *)
Theorem node_add_plain_closed a b r :
  plain a = true → plain b = true → node_add a b = Ok r → plain r = true.
Proof. apply plain_node_add. Qed.

Lemma node_add_plain_closed_witness :
  plain (ObjectNode {[ "k" := (StringNode {[ "u" := 2 ]}, false, false) ]}) = true.
Proof.
  apply (node_add_plain_closed
           (ObjectNode {[ "k" := (StringNode {[ "u" := 1 ]}, false, false) ]})
           (ObjectNode {[ "k" := (StringNode {[ "u" := 1 ]}, false, false) ]}));
    vm_compute; reflexivity.
Defined.

(** X5: a merge of two records raises exactly when some field of both has
    nodes that do not merge. *)
Theorem ObjectNode_add_raises_iff f1 f2 :
  node_add (ObjectNode f1) (ObjectNode f2) = Raise TypeError ↔
  ∃ key v1 v2, f1 !! key = Some v1 ∧ f2 !! key = Some v2
               ∧ node_add v1.1.1 v2.1.1 = Raise TypeError.
Proof.
  split.
  - rewrite node_add_ObjectNode. unfold ObjectNode_add_fields, collect.
    case_bool_decide as Hall; [done|]. intros _.
    apply map_not_Forall in Hall as (key & r & Hr & Hbad); [|apply _].
    rewrite map_lookup_imap in Hr.
    destruct (f1 !! key) as [v1|] eqn:H1; simpl in Hr; [|done].
    injection Hr as <-. exists key, v1.
    destruct (f2 !! key) as [v2|] eqn:H2; [|done].
    exists v2. split_and!; [done..|].
    by destruct (node_add v1.1.1 v2.1.1) as [n|[]].
  - intros (key & [[n1 o1] u1] & [[n2 o2] u2] & H1 & H2 & Hn).
    by eapply ObjectNode_add_raises.
Qed.

(** An instance: the shared field ["k"] holds a number and a string. *)
Lemma ObjectNode_add_raises_iff_witness :
  node_add (ObjectNode {[ "k" := (NumberNode false, false, false) ]})
           (ObjectNode {[ "k" := (StringNode {[ "s" := 1 ]}, false, false);
                          "l" := (NullNode, false, true) ]})
  = Raise TypeError.
Proof.
  apply (proj2 (ObjectNode_add_raises_iff _ _)).
  exists "k", (NumberNode false, false, false),
         (StringNode {[ "s" := 1 ]}, false, false).
  split_and!; vm_compute; reflexivity.
Defined.

Lemma Counter_total_insert_None (m : gmap string Z) i v :
  m !! i = None → Counter_total (<[i:=v]> m) = v + Counter_total m.
Proof.
  intros Hi. unfold Counter_total.
  rewrite map_fold_insert_L; [done| |done]. intros. lia.
Qed.

Lemma Counter_total_insert (m : gmap string Z) i v :
  Counter_total (<[i:=v]> m) = v + Counter_total m - default 0 (m !! i).
Proof.
  destruct (m !! i) as [y|] eqn:Hi; simpl.
  - rewrite <-(insert_delete_id m i y) at 2 by done.
    rewrite <-insert_delete_eq.
    rewrite !Counter_total_insert_None by apply lookup_delete_eq. lia.
  - rewrite Counter_total_insert_None by done. lia.
Qed.

Lemma Counter_add_lookup c d s :
  positive_counts c → positive_counts d →
  Counter_add c d !! s =
  match c !! s, d !! s with
  | Some x, Some y => Some (x + y)
  | Some x, None => Some x
  | None, Some y => Some y
  | None, None => None
  end.
Proof.
  intros Hc Hd. unfold Counter_add. rewrite lookup_merge.
  pose proof (Hc s) as Pc. pose proof (Hd s) as Pd.
  destruct (c !! s) as [x|], (d !! s) as [y|]; simpl; try done;
    try specialize (Pc _ eq_refl); try specialize (Pd _ eq_refl); simpl in *.
  - rewrite (proj2 (Z.ltb_lt 0 (x + y))) by lia. done.
  - rewrite Z.add_0_r, (proj2 (Z.ltb_lt 0 x)) by lia. done.
  - rewrite (proj2 (Z.ltb_lt 0 y)) by lia. done.
Qed.

Lemma Counter_add_empty_l d : positive_counts d → Counter_add ∅ d = d.
Proof.
  intros Hd. apply map_eq. intros s.
  rewrite Counter_add_lookup; [|apply map_Forall_empty|done].
  rewrite lookup_empty. by destruct (d !! s).
Qed.

Lemma positive_counts_insert c i x :
  0 < x → positive_counts c → positive_counts (<[i:=x]> c).
Proof. intros Hx Hc. by apply map_Forall_insert_2. Qed.

Lemma Counter_add_insert_l c d i x :
  c !! i = None → 0 < x → positive_counts c → positive_counts d →
  Counter_add (<[i:=x]> c) d = <[i := x + default 0 (d !! i)]> (Counter_add c d).
Proof.
  intros Hi Hx Hc Hd. apply map_eq. intros s.
  rewrite Counter_add_lookup; [|by apply positive_counts_insert|done].
  destruct (decide (s = i)) as [->|Hs].
  - rewrite !lookup_insert_eq. destruct (d !! i); simpl; [done|].
    by rewrite Z.add_0_r.
  - rewrite !lookup_insert_ne by done. by rewrite Counter_add_lookup.
Qed.

Lemma Counter_total_add c d :
  positive_counts c → positive_counts d →
  Counter_total (Counter_add c d) = Counter_total c + Counter_total d.
Proof.
  intros Hc Hd. induction c as [|i x c Hi IH] using map_ind.
  - rewrite Counter_add_empty_l by done. unfold Counter_total at 2.
    rewrite map_fold_empty. lia.
  - apply map_Forall_insert in Hc as [Hx Hc]; [|done].
    rewrite Counter_add_insert_l, Counter_total_insert by done.
    rewrite IH, Counter_total_insert_None by done.
    rewrite Counter_add_lookup, Hi by done. destruct (d !! i); simpl; lia.
Qed.

Lemma Counter_add_sums c d :
  positive_counts c → positive_counts d →
  (∀ s, default 0 (Counter_add c d !! s)
        = default 0 (c !! s) + default 0 (d !! s))
  ∧ dom (Counter_add c d) = dom c ∪ dom d
  ∧ Counter_total (Counter_add c d) = Counter_total c + Counter_total d.
Proof.
  intros Hc Hd. split_and!.
  - intros s. rewrite Counter_add_lookup by done.
    destruct (c !! s), (d !! s); simpl; lia.
  - apply set_eq. intros s. rewrite elem_of_union, !elem_of_dom.
    rewrite Counter_add_lookup by done.
    destruct (c !! s), (d !! s); split; eauto; intros [[? ?]|[? ?]]; done.
  - by apply Counter_total_add.
Qed.

(** X6: on counters with positive counts, [Counter.__add__] adds the counts
    of each key, keeps the keys of both operands, and adds the totals. *)
Theorem Counter_add_pointwise c d :
  positive_counts c → positive_counts d →
  (∀ s, default 0 (Counter_add c d !! s)
        = default 0 (c !! s) + default 0 (d !! s))
  ∧ dom (Counter_add c d) = dom c ∪ dom d
  ∧ Counter_total (Counter_add c d) = Counter_total c + Counter_total d.
Proof. apply Counter_add_sums. Qed.

Lemma Counter_add_pointwise_witness :
  let c : gmap string Z := {[ "u" := 2; "v" := 1 ]} in
  let d : gmap string Z := {[ "v" := 3; "w" := 1 ]} in
  Counter_add c d = {[ "u" := 2; "v" := 4; "w" := 1 ]}
  ∧ Counter_total (Counter_add c d) = 7.
Proof.
  intros c d. split; [vm_compute; reflexivity|].
  destruct (Counter_add_pointwise c d) as (_ & _ & ->).
  - apply (bool_decide_unpack _). vm_compute. exact I.
  - apply (bool_decide_unpack _). vm_compute. exact I.
  - vm_compute. reflexivity.
Defined.

Lemma node_add_AnyNode_only a b :
  node_add a b = Ok AnyNode → a = AnyNode ∧ b = AnyNode.
Proof.
  destruct a, b; simpl; try done;
    repeat (match goal with
            | |- context [ObjectNode_add_fields ?f ?x ?y] =>
                destruct (ObjectNode_add_fields f x y) as [?|[]]; simpl
            | |- context [node_add ?x ?y] =>
                destruct (node_add x y) as [?|[]]; simpl
            end); done.
Qed.

(** X7: a merge yields [AnyNode] only from two [AnyNode]s. *)
Theorem node_add_AnyNode_inv a b :
  node_add a b = Ok AnyNode → a = AnyNode ∧ b = AnyNode.
Proof. apply node_add_AnyNode_only. Qed.

Lemma node_add_AnyNode_inv_witness : AnyNode = AnyNode ∧ AnyNode = AnyNode.
Proof. apply (node_add_AnyNode_inv AnyNode AnyNode). reflexivity. Defined.

(** X8: a record with a key-indexed array on its right always raises; with
    the operands the other way round the key-indexed array is merged as the
    record it converts to. *)
Theorem ObjectNode_KeyIndexedArrayNode_asymmetric f ks e :
  node_add (ObjectNode f) (KeyIndexedArrayNode ks e) = Raise TypeError
  ∧ node_add (KeyIndexedArrayNode ks e) (ObjectNode f)
    = node_add (to_object_node ks e) (ObjectNode f).
Proof. split; [done|]. by apply KeyIndexedArrayNode_add_other. Qed.

(** ** [infer] *)

Lemma infer_PyList_Ok_inv elems n :
  infer (PyList elems) = Ok n →
  ∃ children value_node,
    Forall2 (λ elem n, infer elem = Ok n) elems children
    ∧ sum children AnyNode = Ok value_node ∧ n = ArrayNode value_node.
Proof.
  rewrite infer_PyList.
  destruct (infer_elems infer elems) as [children|] eqn:Hc; simpl; [|done].
  destruct (sum children AnyNode) as [v|] eqn:Hs; simpl; [|done].
  intros [= <-]. exists children, v. split; [|done].
  by apply infer_elems_Ok_inv.
Qed.

Lemma infer_PyList_Ok elems children value_node :
  Forall2 (λ elem n, infer elem = Ok n) elems children →
  sum children AnyNode = Ok value_node →
  infer (PyList elems) = Ok (ArrayNode value_node).
Proof.
  intros Hall Hsum. rewrite infer_PyList, (infer_elems_Ok _ _ Hall). simpl.
  by rewrite Hsum.
Qed.

Lemma infer_root_table obj n :
  infer obj = Ok n →
  n ≠ AnyNode
  ∧ (n = NullNode ↔ obj = PyNone)
  ∧ match obj with
    | PyNone => n = NullNode
    | PyBool _ => n = BooleanNode
    | PyInt _ => n = NumberNode false
    | PyFloat _ _ => n = NumberNode true
    | PyStr s => n = StringNode {[ s := 1 ]}
    | PyList _ => t n = ARRAY
    | PyDict _ => t n = KEY_INDEXED_ARRAY ∨ t n = OBJECT
    | PyOpaque _ => False
    end.
Proof.
  destruct obj as [ |b|z|m e|s|items|elems|name].
  1-5: by intros [= <-].
  - rewrite infer_PyDict.
    destruct (infer_items infer items []) as [object_node|]; simpl; [|done].
    rewrite promote_eq. intros [= <-].
    destruct (sum _ AnyNode); simpl; split_and!; try done; auto.
  - intros (children & v & _ & _ & ->)%infer_PyList_Ok_inv. by split_and!.
  - done.
Qed.

(** X9: what [infer] returns at the root: never [AnyNode]; the scalar node
    of a scalar; an [ArrayNode] for a list; a [KeyIndexedArrayNode] or an
    [ObjectNode] for a dictionary; [NullNode] only for [None]. *)
Theorem infer_root obj n :
  infer obj = Ok n →
  n ≠ AnyNode
  ∧ (n = NullNode ↔ obj = PyNone)
  ∧ match obj with
    | PyNone => n = NullNode
    | PyBool _ => n = BooleanNode
    | PyInt _ => n = NumberNode false
    | PyFloat _ _ => n = NumberNode true
    | PyStr s => n = StringNode {[ s := 1 ]}
    | PyList _ => t n = ARRAY
    | PyDict _ => t n = KEY_INDEXED_ARRAY ∨ t n = OBJECT
    | PyOpaque _ => False
    end.
Proof. apply infer_root_table. Qed.

Lemma infer_root_witness :
  t (ArrayNode (NumberNode false)) = ARRAY.
Proof.
  apply (infer_root (PyList [PyInt 1; PyInt 2]) (ArrayNode (NumberNode false))).
  vm_compute. reflexivity.
Defined.

Lemma sum_AnyNode_inv children start :
  sum children start = Ok AnyNode →
  start = AnyNode ∧ Forall (λ c, c = AnyNode) children.
Proof.
  revert start. induction children as [|c children IH]; intros start; simpl.
  - by intros [= ->].
  - destruct (node_add start c) as [acc|] eqn:Hacc; simpl; [|done].
    intros [-> Hall]%IH. apply node_add_AnyNode_only in Hacc as [-> ->].
    split; [done|]. by constructor.
Qed.

(** X10: the element node of an inferred array is [AnyNode] exactly when
    the array is empty. *)
Theorem infer_empty_array elems :
  infer (PyList elems) = Ok (ArrayNode AnyNode) ↔ elems = [].
Proof.
  split; [|by intros ->].
  intros (children & v & Hall & Hsum & [= <-])%infer_PyList_Ok_inv.
  apply sum_AnyNode_inv in Hsum as [_ Hany].
  destruct Hall as [|elem c elems children Hc Hall]; [done|].
  apply Forall_cons in Hany as [-> _]. by apply infer_root_table in Hc as [? _].
Qed.

Lemma infer_empty_array_witness : infer (PyList []) = Ok (ArrayNode AnyNode).
Proof. by apply (proj2 (infer_empty_array [])). Defined.

(** X11: a [null] in front of a non-empty array that infers leaves the
    inferred node as it is. *)
Theorem infer_null_first elems n :
  elems ≠ [] → infer (PyList elems) = Ok n →
  infer (PyList (PyNone :: elems)) = Ok n.
Proof.
  intros Hne (children & v & Hall & Hsum & ->)%infer_PyList_Ok_inv.
  apply (infer_PyList_Ok _ (NullNode :: children)); [by constructor|].
  destruct Hall as [|elem c elems children Hc Hall]; [done|].
  simpl in *. apply infer_root_table in Hc as [Hc _].
  by destruct c.
Qed.

Lemma infer_null_first_witness :
  infer (PyList [PyNone; PyInt 1; PyFloat 3 (-1)])
  = Ok (ArrayNode (NumberNode true)).
Proof.
  apply infer_null_first; [done|]. vm_compute. reflexivity.
Defined.

Lemma counts_positive_ObjectNode f :
  counts_positive (ObjectNode f) = true ↔
  ∀ key v, f !! key = Some v → counts_positive v.1.1 = true.
Proof.
  simpl. apply (map_fold_weak_ind (λ r m,
    r = true ↔ ∀ key v, m !! key = Some v → counts_positive v.1.1 = true)).
  - split; [|done]. intros _ key v. by rewrite lookup_empty.
  - intros i x m r Hi IH. rewrite andb_true_iff, IH. split.
    + intros [Hx Hm] key v. rewrite lookup_insert.
      case_decide; [by intros [= <-]|apply Hm].
    + intros H. split; [apply (H i); by rewrite lookup_insert_eq|].
      intros key v Hk. apply (H key). rewrite lookup_insert_ne; [done|].
      intros ->. congruence.
Qed.

Lemma node_add_KeyIndexedArrayNode_ObjectNode ks e f :
  node_add (KeyIndexedArrayNode ks e) (ObjectNode f) =
  new_fields ← ObjectNode_add_fields (λ _ n, node_add e n)
                 (to_object_node_fields ks e) f;
  Ok (ObjectNode new_fields).
Proof. simpl. by destruct (ObjectNode_add_fields _ _ _). Qed.

Lemma counts_positive_to_object_node ks e :
  counts_positive e = true → counts_positive (to_object_node ks e) = true.
Proof.
  intros He. apply counts_positive_ObjectNode. intros key v.
  unfold to_object_node_fields. rewrite lookup_gset_to_gmap_Some.
  by intros [_ <-].
Qed.

Lemma counts_positive_node_add_size n :
  ∀ a b r, (node_size a < n)%nat →
           counts_positive a = true → counts_positive b = true →
           node_add a b = Ok r → counts_positive r = true.
Proof.
  induction n as [|n IH]; [lia|].
  intros a b r Hn Ha Hb.
  destruct a as [ | | |cf1|c1|f1|e1|ks1 e1], b as [ | | |cf2|c2|f2|e2|ks2 e2];
    try (simpl; intros [= <-]; done).
  - intros [= <-]. simpl. apply bool_decide_eq_true, Counter_add_positive.
  - rewrite node_add_ObjectNode.
    destruct (ObjectNode_add_fields _ f1 f2) as [f3|] eqn:H3; simpl; [|done].
    intros [= <-]. rewrite ObjectNode_add_fields_Ok_iff in H3.
    rewrite counts_positive_ObjectNode in Ha, Hb.
    apply counts_positive_ObjectNode.
    intros key v Hv. specialize (H3 key). rewrite Hv in H3. simpl in H3.
    destruct (f1 !! key) as [v1|] eqn:H1, (f2 !! key) as [v2|] eqn:H2;
      simpl in H3; try done.
    + destruct (node_add v1.1.1 v2.1.1) as [n12|] eqn:H12; simpl in H3; [|done].
      injection H3 as <-. simpl.
      apply (IH v1.1.1 v2.1.1); [|by apply (Ha key)|by apply (Hb key)|done].
      pose proof (node_size_field _ _ _ H1). lia.
    + injection H3 as <-. simpl. by apply (Ha key).
    + injection H3 as <-. simpl. by apply (Hb key).
  - rewrite node_add_ArrayNode.
    destruct (node_add e1 e2) as [v|] eqn:H12; simpl; [|done].
    intros [= <-]. simpl in *. apply (IH e1 e2); [lia|done..].
  - intros [= <-]. by apply counts_positive_to_object_node.
  - intros [= <-]. by apply counts_positive_to_object_node.
  - rewrite node_add_KeyIndexedArrayNode_ObjectNode.
    destruct (ObjectNode_add_fields _ _ f2) as [f3|] eqn:H3; simpl; [|done].
    intros [= <-]. rewrite ObjectNode_add_fields_Ok_iff in H3.
    rewrite counts_positive_ObjectNode in Hb.
    apply counts_positive_ObjectNode.
    intros key v Hv. specialize (H3 key). rewrite Hv in H3. simpl in H3.
    destruct (to_object_node_fields ks1 e1 !! key) as [v1|] eqn:H1;
      [apply lookup_gset_to_gmap_Some in H1 as [_ <-]|];
      destruct (f2 !! key) as [v2|] eqn:H2; simpl in H3; try done.
    + destruct (node_add e1 v2.1.1) as [n12|] eqn:H12; simpl in H3; [|done].
      injection H3 as <-. simpl in *.
      apply (IH e1 v2.1.1); [lia|done|by apply (Hb key)|done].
    + by injection H3 as <-.
    + injection H3 as <-. simpl. by apply (Hb key).
  - simpl. destruct (node_add e1 e2) as [v|] eqn:H12; simpl; [|done].
    intros [= <-]. simpl in *. apply (IH e1 e2); [lia|done..].
Qed.

Lemma counts_positive_node_add a b r :
  counts_positive a = true → counts_positive b = true →
  node_add a b = Ok r → counts_positive r = true.
Proof. apply (counts_positive_node_add_size (S (node_size a))). lia. Qed.

Lemma counts_positive_sum l start r :
  Forall (λ n, counts_positive n = true) l → counts_positive start = true →
  sum l start = Ok r → counts_positive r = true.
Proof.
  intros Hl. revert start. induction Hl as [|x l Hx _ IH]; intros start Hs; simpl.
  - by intros [= <-].
  - destruct (node_add start x) as [acc|] eqn:Hacc; simpl; [|done].
    apply IH. by apply (counts_positive_node_add start x).
Qed.

Lemma dict_setitem_Forall {V} (P : string * V → Prop) key value d :
  P (key, value) → Forall P d → Forall P (dict_setitem key value d).
Proof.
  intros Hkv. induction 1 as [|[k v] d Hk Hd IH]; simpl.
  - by constructor.
  - case_bool_decide; subst; by constructor.
Qed.

Lemma infer_items_Forall (P : string * field → Prop) items object_node r :
  (∀ key value n, (key, value) ∈ items → infer value = Ok n →
                  P (key, fresh_field n)) →
  Forall P object_node →
  infer_items infer items object_node = Ok r → Forall P r.
Proof.
  revert object_node. induction items as [|[key value] items IH];
    intros object_node HP Hacc; simpl.
  - by intros [= <-].
  - destruct (infer value) as [n|] eqn:Hn; simpl; [|done].
    apply IH.
    + intros k v m Hin. apply HP. by right.
    + apply dict_setitem_Forall; [|done]. apply (HP key value n); [left|done].
Qed.

(** X12: every count stored in a tree that [infer] returns is positive. *)
Theorem infer_counts_positive obj n :
  infer obj = Ok n → counts_positive n = true.
Proof.
  revert n. induction obj as [ |b|z|m e|s|items IH|elems IH|name]
    using pyobj_nested_ind; intros n; try (by intros [= <-]).
  - intros [= <-]. simpl. apply bool_decide_eq_true.
    by apply map_Forall_singleton.
  - rewrite infer_PyDict.
    destruct (infer_items infer items []) as [object_node|] eqn:Hitems;
      simpl; [|done].
    rewrite promote_eq. intros [= <-].
    assert (Forall (λ entry : string * field,
                      counts_positive entry.2.1.1 = true) object_node) as Hall.
    { apply (infer_items_Forall _ items [] object_node); [|constructor|done].
      intros key value n Hin Hn. simpl. rewrite Forall_forall in IH.
      by apply (IH (key, value)). }
    destruct (sum _ AnyNode) as [v|] eqn:Hsum.
    + simpl. refine (counts_positive_sum _ AnyNode v _ eq_refl Hsum).
      clear Hsum Hitems. induction Hall as [|[k fld] l Hfld _ IHl]; [constructor|].
      rewrite !fmap_cons. by constructor.
    + apply counts_positive_ObjectNode. intros key v Hv.
      apply elem_of_list_to_map_2 in Hv. rewrite Forall_forall in Hall.
      by apply (Hall (key, v)).
  - intros (children & v & Hall & Hsum & ->)%infer_PyList_Ok_inv. simpl.
    apply (counts_positive_sum children AnyNode); [|done..].
    clear Hsum. induction Hall as [|elem c elems children Hc Hall IHall];
      [constructor|].
    apply Forall_cons in IH as [IHc IH]. constructor; [by apply IHc|by apply IHall].
Qed.

Lemma infer_counts_positive_witness :
  counts_positive
    (ArrayNode (StringNode {[ "u" := 2; "v" := 1 ]})) = true.
Proof.
  apply (infer_counts_positive (PyList [PyStr "u"; PyStr "v"; PyStr "u"])).
  vm_compute. reflexivity.
Defined.

Lemma sum_numbers l cf :
  Forall (λ obj, JsonPrimitiveType.tell obj = Ok JsonPrimitiveType.NUMBER) l →
  ∃ children,
    Forall2 (λ elem n, infer elem = Ok n) l children
    ∧ sum children (NumberNode cf)
      = Ok (NumberNode (cf || existsb isinstance_float l)).
Proof.
  intros Hl. revert cf. induction Hl as [|obj l Hobj _ IH]; intros cf.
  - exists []. split; [constructor|]. simpl. by rewrite orb_false_r.
  - destruct (IH (cf || isinstance_float obj)) as (children & Hall & Hsum).
    exists (NumberNode (isinstance_float obj) :: children). split.
    + constructor; [|done]. by destruct obj.
    + simpl. by rewrite Hsum, orb_assoc.
Qed.

(** X13: a non-empty array of numbers infers to an array of [NumberNode]
    whose flag is set exactly when some element is a float. *)
Theorem infer_number_array l :
  l ≠ [] →
  Forall (λ obj, JsonPrimitiveType.tell obj = Ok JsonPrimitiveType.NUMBER) l →
  infer (PyList l) = Ok (ArrayNode (NumberNode (existsb isinstance_float l))).
Proof.
  intros Hne Hl. destruct Hl as [|obj l Hobj Hl]; [done|].
  destruct (sum_numbers l (isinstance_float obj) Hl) as (children & Hall & Hsum).
  apply (infer_PyList_Ok _ (NumberNode (isinstance_float obj) :: children)).
  - constructor; [|done]. by destruct obj.
  - done.
Qed.

Lemma infer_number_array_witness :
  infer (PyList [PyInt 1; PyFloat 5 (-1); PyInt 3])
  = Ok (ArrayNode (NumberNode true)).
Proof. apply infer_number_array; [done|]. repeat constructor. Defined.

(** The counter of a run of strings added one by one to [c]. *)
Lemma occurrences_cons s x l :
  occurrences s (x :: l) = (if decide (x = s) then 1 else 0) + occurrences s l.
Proof.
  unfold occurrences. rewrite filter_cons. case_decide; simpl; lia.
Qed.

Lemma occurrences_pos s l : s ∈ l ↔ 0 < occurrences s l.
Proof.
  induction l as [|x l IH].
  - unfold occurrences. simpl. rewrite elem_of_nil. lia.
  - rewrite occurrences_cons, elem_of_cons.
    assert (0 ≤ occurrences s l) by (unfold occurrences; lia).
    case_decide; [subst; split; [lia|auto]|].
    rewrite IH. split; [intros [?|?]; [congruence|lia]|intros; right; lia].
Qed.

Lemma sum_strings l c :
  positive_counts c →
  ∃ c', sum ((λ s, StringNode {[ s := 1 ]}) <$> l) (StringNode c)
        = Ok (StringNode c')
        ∧ positive_counts c'
        ∧ (∀ s, default 0 (c' !! s) = default 0 (c !! s) + occurrences s l)
        ∧ Counter_total c' = Counter_total c + Z.of_nat (length l).
Proof.
  revert c. induction l as [|x l IH]; intros c Hc.
  - exists c. split_and!; [done..| |simpl; lia].
    intros s. unfold occurrences. simpl. lia.
  - assert (positive_counts ({[ x := 1 ]} : gmap string Z)) as H1
      by (by apply map_Forall_singleton).
    destruct (IH (Counter_add c {[ x := 1 ]})) as (c' & Hsum & Hpos & Hl & Ht);
      [apply Counter_add_positive|].
    exists c'. split_and!; [done..| |].
    + intros s. rewrite Hl, occurrences_cons.
      destruct (Counter_add_sums c {[ x := 1 ]} Hc H1) as (-> & _ & _).
      rewrite lookup_singleton. case_decide; simpl; lia.
    + rewrite Ht.
      destruct (Counter_add_sums c {[ x := 1 ]} Hc H1) as (_ & _ & ->).
      unfold Counter_total at 2. rewrite map_fold_singleton.
      rewrite length_cons. lia.
Qed.

Lemma infer_string_array_counter l :
  l ≠ [] →
  ∃ c, infer (PyList (PyStr <$> l)) = Ok (ArrayNode (StringNode c))
       ∧ (∀ s, c !! s = if decide (s ∈ l) then Some (occurrences s l) else None)
       ∧ dom c = list_to_set l
       ∧ Counter_total c = Z.of_nat (length l).
Proof.
  intros Hne. destruct l as [|x l]; [done|].
  assert (positive_counts ({[ x := 1 ]} : gmap string Z)) as H1
    by (by apply map_Forall_singleton).
  destruct (sum_strings l {[ x := 1 ]} H1) as (c & Hsum & Hpos & Hl & Ht).
  assert (∀ s, c !! s = if decide (s ∈ x :: l) then Some (occurrences s (x :: l))
                        else None) as Hlookup.
  { intros s. specialize (Hl s). rewrite lookup_singleton in Hl.
    rewrite occurrences_cons. pose proof (occurrences_pos s (x :: l)) as Hp.
    rewrite occurrences_cons in Hp.
    destruct (c !! s) as [count|] eqn:Hs; simpl in Hl.
    - specialize (Hpos s count Hs). simpl in Hpos.
      rewrite decide_True by (apply Hp; case_decide; simpl in *; lia).
      f_equal. case_decide; simpl in *; lia.
    - rewrite decide_False; [done|]. rewrite Hp. case_decide; simpl in *; lia. }
  exists c. split_and!.
  - apply (infer_PyList_Ok _
             ((λ s, StringNode {[ s := 1 ]}) <$> (x :: l))); [|done].
    apply Forall2_fmap, Forall_Forall2_diag, Forall_forall. by intros s _.
  - done.
  - apply set_eq. intros s. rewrite elem_of_dom, Hlookup, elem_of_list_to_set.
    case_decide; (split; [|done]); [eauto|by intros [? ?]].
  - rewrite Ht. unfold Counter_total. rewrite map_fold_singleton.
    rewrite length_cons. lia.
Qed.

(** X14: a non-empty array of strings infers to an array of a [StringNode]
    whose counter holds, for each string of the array, the number of times
    it occurs, and nothing else; the total is the length of the array. *)
Theorem infer_string_array l :
  l ≠ [] →
  ∃ c, infer (PyList (PyStr <$> l)) = Ok (ArrayNode (StringNode c))
       ∧ (∀ s, c !! s = if decide (s ∈ l) then Some (occurrences s l) else None)
       ∧ dom c = list_to_set l
       ∧ Counter_total c = Z.of_nat (length l).
Proof. apply infer_string_array_counter. Qed.

Lemma infer_string_array_witness :
  ∃ c, infer (PyList [PyStr "u"; PyStr "v"; PyStr "u"])
       = Ok (ArrayNode (StringNode c))
       ∧ c !! "u" = Some 2 ∧ c !! "v" = Some 1 ∧ c !! "w" = None.
Proof.
  destruct (infer_string_array ["u"; "v"; "u"]) as (c & Hc & Hl & _); [done|].
  exists c. split; [exact Hc|]. rewrite !Hl. by vm_compute.
Defined.

(** X15: an array of strings is judged an enum exactly when the square of
    the number of distinct strings is below the number of strings. *)
Theorem infer_string_array_enum l c :
  infer (PyList (PyStr <$> l)) = Ok (ArrayNode (StringNode c)) →
  infer_whether_is_enum c
  = bool_decide (Z.of_nat (size (list_to_set l : gset string)) ^ 2
                 < Z.of_nat (length l)).
Proof.
  intros Hc. destruct l as [|x l]; [done|].
  destruct (infer_string_array_counter (x :: l)) as (c' & Hc' & _ & Hdom & Ht);
    [done|].
  rewrite Hc in Hc'. injection Hc' as <-.
  unfold infer_whether_is_enum. by rewrite Ht, <-Hdom, size_dom.
Qed.

Lemma infer_string_array_enum_witness :
  infer_whether_is_enum {[ "u" := 3; "v" := 2 ]} = true.
Proof.
  rewrite (infer_string_array_enum ["u"; "v"; "u"; "v"; "u"]).
  - by vm_compute.
  - vm_compute. reflexivity.
Defined.

Lemma dict_setitem_keys {V} key (value : V) d :
  (list_to_set (dict_setitem key value d).*1 : gset string)
  = {[ key ]} ∪ list_to_set d.*1.
Proof.
  induction d as [|[k v] d IH].
  - done.
  - cbn [dict_setitem].
    case_bool_decide; subst; rewrite !fmap_cons, !list_to_set_cons; cbn [fst].
    + by rewrite (assoc_L (∪)), union_idemp_L.
    + rewrite IH, !(assoc_L (∪)). f_equal. apply (comm_L (∪)).
Qed.

Lemma infer_items_keys items object_node r :
  infer_items infer items object_node = Ok r →
  (list_to_set r.*1 : gset string)
  = list_to_set object_node.*1 ∪ list_to_set items.*1.
Proof.
  revert object_node. induction items as [|[key value] items IH];
    intros object_node; cbn [infer_items].
  - intros [= <-]. simpl. by rewrite union_empty_r_L.
  - destruct (infer value) as [n|]; cbn [try_except mbind result_bind]; [|done].
    intros ->%IH. rewrite dict_setitem_keys, fmap_cons, list_to_set_cons.
    cbn [fst]. rewrite !(assoc_L (∪)). f_equal. apply (comm_L (∪)).
Qed.

(** X16: the node inferred from an object records exactly the keys of the
    object, as the key set of a Map or as the field names of a Record, and
    converting the Map to a Record keeps them. *)
Theorem infer_object_keys items n :
  infer (PyDict items) = Ok n →
  recorded_keys n = list_to_set items.*1
  ∧ ∀ keys value_node,
      n = KeyIndexedArrayNode keys value_node →
      recorded_keys (to_object_node keys value_node) = list_to_set items.*1.
Proof.
  rewrite infer_PyDict.
  destruct (infer_items infer items []) as [object_node|] eqn:Hitems;
    simpl; [|done].
  apply infer_items_keys in Hitems. rewrite promote_eq. intros [= <-].
  assert ((list_to_set object_node.*1 : gset string) = list_to_set items.*1)
    as Hkeys by (rewrite Hitems; simpl; by rewrite union_empty_l_L).
  destruct (sum _ AnyNode) as [v|]; simpl.
  - split; [done|]. intros keys value_node [= <- <-].
    unfold to_object_node_fields. by rewrite dom_gset_to_gmap.
  - split; [|done]. by rewrite dom_list_to_map_L.
Qed.

Lemma infer_object_keys_witness :
  recorded_keys (KeyIndexedArrayNode {[ "x"; "y" ]} (NumberNode false))
  = list_to_set ["x"; "y"].
Proof.
  apply (infer_object_keys [("x", PyInt 1); ("y", PyInt 2)]).
  vm_compute. reflexivity.
Defined.

Lemma infer_items_Ok_inv items object_node r :
  infer_items infer items object_node = Ok r →
  ∃ nodes, Forall2 (λ item n, infer item.2 = Ok n) items nodes.
Proof.
  revert object_node. induction items as [|[key value] items IH];
    intros object_node; simpl.
  - intros _. exists []. constructor.
  - destruct (infer value) as [n|] eqn:Hn; simpl; [|done].
    intros [nodes Hall]%IH. exists (n :: nodes). by constructor.
Qed.

(** X17: in a Record inferred from an object with distinct keys, the field
    of every key holds the node inferred from its value, is not optional,
    and is nullable exactly when the value is [None]. *)
Theorem infer_record_fields items fields key value :
  NoDup items.*1 →
  infer (PyDict items) = Ok (ObjectNode fields) →
  (key, value) ∈ items →
  ∃ n, infer value = Ok n
       ∧ fields !! key
         = Some (n, false, match value with PyNone => true | _ => false end).
Proof.
  intros Hnd Hinfer Hin. rewrite infer_PyDict in Hinfer.
  destruct (infer_items infer items []) as [object_node|] eqn:Hitems;
    simpl in Hinfer; [|done].
  destruct (infer_items_Ok_inv _ _ _ Hitems) as [nodes Hall].
  rewrite (infer_items_Ok items nodes []) in Hitems by done.
  injection Hitems as <-. simpl in Hinfer.
  rewrite promote_eq in Hinfer.
  destruct (sum _ AnyNode); [done|]. injection Hinfer as <-.
  apply list_elem_of_lookup in Hin as [i Hi].
  destruct (Forall2_lookup_l _ _ _ _ _ Hall Hi) as (n & Hn & Hv). simpl in Hv.
  exists n. split; [done|].
  apply elem_of_list_to_map_1.
  - rewrite fst_zip; [done|].
    rewrite !length_fmap. by rewrite (Forall2_length _ _ _ Hall).
  - apply list_elem_of_lookup. exists i. rewrite lookup_zip_with.
    rewrite !list_lookup_fmap, Hi, Hn. simpl. unfold fresh_field.
    do 3 f_equal. apply infer_root_table in Hv as (_ & _ & Htab).
    destruct value; simpl in Htab; subst; try done.
    + by destruct Htab, n.
    + by destruct n.
Qed.

Lemma infer_record_fields_witness :
  ∃ n, infer PyNone = Ok n
       ∧ ({[ "x" := (NumberNode false, false, false);
             "y" := (StringNode {[ "s" := 1 ]}, false, false);
             "z" := (NullNode, false, true) ]} : gmap string field) !! "z"
         = Some (n, false, true).
Proof.
  apply (infer_record_fields
           [("x", PyInt 1); ("y", PyStr "s"); ("z", PyNone)]).
  - apply (bool_decide_unpack _). vm_compute. exact I.
  - vm_compute. reflexivity.
  - apply list_elem_of_In. simpl. auto.
Defined.

(** X18: where a failure arises.  The location leads to a value of the
    input that is a foreign object, the one [UnrecognizableTypeError]
    carries, or a list whose elements all infer, to the nodes
    [IncompatibleNodesError] carries, and do not merge. *)
Theorem infer_failure_origin obj e :
  infer obj = Raise e →
  ∃ origin,
    origin ∈ descend (loc e) obj
    ∧ match args e with
      | UnrecognizableTypeError o => o = origin ∧ ∃ name, origin = PyOpaque name
      | IncompatibleNodesError children =>
          ∃ elems, origin = PyList elems
                   ∧ Forall2 (λ elem n, infer elem = Ok n) elems children
                   ∧ sum children AnyNode = Raise TypeError
      end.
Proof.
  intros (origin & Ho & _ & Hs)%infer_Raise_structural_origin. by exists origin.
Qed.

Lemma infer_failure_origin_witness :
  ∃ origin,
    origin ∈ descend ["k"; "ARRAY_ELEMENT"]
               (PyDict [("k", PyList [PyInt 1; PyOpaque "datetime"])])
    ∧ PyOpaque "datetime" = origin ∧ ∃ name, origin = PyOpaque name.
Proof.
  apply (infer_failure_origin
           (PyDict [("k", PyList [PyInt 1; PyOpaque "datetime"])])
           {| args := UnrecognizableTypeError (PyOpaque "datetime");
              loc := ["k"; "ARRAY_ELEMENT"] |}).
  vm_compute. reflexivity.
Defined.

Lemma infer_items_is_Ok items object_node :
  Forall (λ item : string * pyobj, ∃ n, infer item.2 = Ok n) items →
  ∃ r, infer_items infer items object_node = Ok r.
Proof.
  intros Hall. revert object_node.
  induction Hall as [|[key value] items [n Hn] _ IH]; intros object_node; simpl.
  - by eexists.
  - simpl in Hn. rewrite Hn. simpl. apply IH.
Qed.

Lemma infer_list_free_Ok obj :
  list_free obj = true → ∃ n, infer obj = Ok n.
Proof.
  induction obj as [ |b|z|m e|s|items IH|elems IH|name]
    using pyobj_nested_ind; intros Hfree; try done; try (by eexists).
  rewrite infer_PyDict. simpl in Hfree.
  destruct (infer_items_is_Ok items []) as [r ->].
  - rewrite Forall_forall in IH. apply Forall_forall.
    intros item Hin. apply IH; [done|].
    rewrite forallb_forall in Hfree. apply Hfree. by apply list_elem_of_In.
  - simpl. rewrite promote_eq. by eexists.
Qed.

(** X19: on a value that holds no list and no foreign object, [infer]
    raises no [JsinError], neither [UnrecognizableTypeError] nor
    [IncompatibleNodesError], at any location. *)
Theorem infer_list_free obj e :
  list_free obj = true → infer obj ≠ Raise e.
Proof. intros [n ->]%infer_list_free_Ok. discriminate. Qed.

Lemma infer_list_free_witness :
  infer (PyDict [("a", PyInt 1); ("b", PyDict [("c", PyStr "s")]);
                 ("d", PyNone)])
  ≠ Raise (new (IncompatibleNodesError [])).
Proof. apply infer_list_free. reflexivity. Defined.

Lemma infer_dict_free_plain obj n :
  dict_free obj = true → infer obj = Ok n → plain n = true.
Proof.
  revert n. induction obj as [ |b|z|m e|s|items IH|elems IH|name]
    using pyobj_nested_ind; intros n Hfree; try done;
    try (by intros [= <-]).
  - intros [= <-]. simpl. apply bool_decide_eq_true.
    by apply map_Forall_singleton.
  - intros (children & v & Hall & Hsum & ->)%infer_PyList_Ok_inv. simpl.
    apply (plain_sum children AnyNode); [|done..].
    simpl in Hfree. rewrite forallb_forall in Hfree.
    clear Hsum. induction Hall as [|elem c elems children Hc Hall IHall];
      [constructor|].
    apply Forall_cons in IH as [IHc IH]. constructor.
    + apply IHc; [|done]. apply Hfree. by left.
    + apply IHall; [done|]. intros x Hx. apply Hfree. by right.
Qed.

Lemma Forall2_infer_Permutation l l' children :
  l ≡ₚ l' → Forall2 (λ elem n, infer elem = Ok n) l children →
  ∃ children', children ≡ₚ children'
               ∧ Forall2 (λ elem n, infer elem = Ok n) l' children'.
Proof.
  intros Hperm. revert children.
  induction Hperm as [|x l l' _ IH|x y l|l l' l'' _ IH1 _ IH2]; intros children Hall.
  - apply Forall2_nil_inv_l in Hall as ->. exists []. by split.
  - apply Forall2_cons_inv_l in Hall as (c & cs & Hc & Hall & ->).
    destruct (IH _ Hall) as (cs' & Hp & Hall'). exists (c :: cs').
    split; [by constructor|by constructor].
  - apply Forall2_cons_inv_l in Hall as (c1 & cs & Hc1 & Hall & ->).
    apply Forall2_cons_inv_l in Hall as (c2 & cs' & Hc2 & Hall & ->).
    exists (c2 :: c1 :: cs'). split; [apply perm_swap|by repeat constructor].
  - destruct (IH1 _ Hall) as (cs' & Hp1 & Hall').
    destruct (IH2 _ Hall') as (cs'' & Hp2 & Hall'').
    exists cs''. split; [by etrans|done].
Qed.

Lemma infer_elems_Raise_elem l elem e :
  elem ∈ l → infer elem = Raise e → ∃ e', infer_elems infer l = Raise e'.
Proof.
  intros Hin He. induction l as [|x l IH]; [by apply elem_of_nil in Hin|].
  simpl. destruct (infer x) as [n|e'] eqn:Hx; simpl; [|by eexists].
  apply elem_of_cons in Hin as [->|Hin]; [congruence|].
  destruct (IH Hin) as [e' ->]. by eexists.
Qed.

(** X20: the order of the elements of an array that holds no dictionary
    does not matter: a reordered array infers to the same node, or fails
    as well. *)
Theorem infer_array_order_independent l l' :
  dict_free (PyList l) = true → l ≡ₚ l' →
  to_option (infer (PyList l)) = to_option (infer (PyList l')).
Proof.
  intros Hfree Hperm. rewrite !infer_PyList.
  destruct (infer_elems infer l) as [children|e] eqn:Hl.
  - apply infer_elems_Ok_inv in Hl.
    destruct (Forall2_infer_Permutation _ _ _ Hperm Hl) as (children' & Hp & Hl').
    rewrite (infer_elems_Ok _ _ Hl'). simpl.
    assert (all_plain children) as Hplain.
    { simpl in Hfree. rewrite forallb_forall in Hfree.
      clear Hl' Hp Hperm. unfold all_plain.
      induction Hl as [|elem c elems children Hc Hall IHall]; [constructor|].
      apply Forall_cons. split.
      + apply (infer_dict_free_plain elem); [|done]. apply Hfree. by left.
      + apply IHall. intros x Hx. apply Hfree. by right. }
    rewrite (sum_Permutation children children' AnyNode Hp Hplain eq_refl).
    by destruct (sum children' AnyNode).
  - apply infer_elems_Raise in Hl as (elem & Hin & He).
    rewrite Hperm in Hin.
    destruct (infer_elems_Raise_elem l' elem e Hin He) as [e' ->]. done.
Qed.

Lemma infer_array_order_independent_witness :
  to_option (infer (PyList [PyList [PyStr "a"]; PyList []; PyNone]))
  = to_option (infer (PyList [PyNone; PyList [PyStr "a"]; PyList []])).
Proof.
  apply infer_array_order_independent; [reflexivity|].
  symmetry. exact (Permutation_cons_append [PyList [PyStr "a"]; PyList []] PyNone).
Defined.

(** ** The start of [pydanticalize] and the traversal *)

Lemma infer_single_field key value :
  infer (PyDict [(key, value)]) =
  match infer value with
  | Ok n => Ok (KeyIndexedArrayNode {[ key ]} n)
  | Raise e => Raise (under key e)
  end.
Proof.
  rewrite infer_PyDict. cbn [infer_items].
  destruct (infer value) as [n|e];
    cbn [try_except mbind result_bind dict_setitem]; [|done].
  rewrite promote_eq. simpl. by rewrite union_empty_r_L.
Qed.

(** X21: wrapped in a one-field object, a value that infers gives a Map
    node, so the conversion that opens [pydanticalize] is always defined:
    it yields the record of the one field, and a failure of [infer] comes
    back located under that field. *)
Theorem schematic_tree_spec obj :
  pydanticalize.schematic_tree obj =
  match infer obj with
  | Ok n => Ok (ObjectNode {[ "json" := fresh_field n ]})
  | Raise e => Raise (pydanticalize.Jsin (under "json" e))
  end.
Proof.
  unfold pydanticalize.schematic_tree. rewrite infer_single_field.
  destruct (infer obj) as [n|e]; simpl; [|done].
  unfold to_object_node, to_object_node_fields.
  by rewrite gset_to_gmap_singleton.
Qed.

(** X22: an object with fewer than two fields never infers to a Record. *)
Theorem infer_small_object items n :
  (length items < 2)%nat → infer (PyDict items) = Ok n →
  t n = KEY_INDEXED_ARRAY.
Proof.
  intros Hlen.
  destruct items as [|[key value] [|item items]]; [| |simpl in Hlen; lia].
  - by intros [= <-].
  - rewrite infer_single_field. destruct (infer value) as [v|]; [|done].
    by intros [= <-].
Qed.

Lemma infer_small_object_witness :
  t (KeyIndexedArrayNode {[ "k" ]} (StringNode {[ "s" := 1 ]}))
  = KEY_INDEXED_ARRAY.
Proof.
  apply (infer_small_object [("k", PyStr "s")]); [simpl; lia|].
  vm_compute. reflexivity.
Defined.

Lemma iter_fields_length (f : gmap string field) :
  (∀ key v name, f !! key = Some v →
     length (iter_nodes_postorder v.1.1 name) = node_size v.1.1) →
  length (map_fold (λ key (value : field) rest,
                      (iter_nodes_postorder value.1.1 key ++ rest)%list) [] f)
  = map_fold (λ _ (value : field) acc, (node_size value.1.1 + acc)%nat) 0%nat f.
Proof.
  intros Hf. rewrite !map_fold_foldr.
  assert (∀ key v, (key, v) ∈ map_to_list f →
    ∀ name, length (iter_nodes_postorder v.1.1 name) = node_size v.1.1) as Hl.
  { intros key v Hin%elem_of_map_to_list name. by apply (Hf key). }
  clear Hf. induction (map_to_list f) as [|[key v] l IH]; simpl; [done|].
  rewrite length_app, (Hl key v) by left. rewrite IH; [done|].
  intros k w Hin. apply (Hl k). by right.
Qed.

Lemma iter_nodes_postorder_length_size k :
  ∀ n name, (node_size n < k)%nat →
            length (iter_nodes_postorder n name) = node_size n.
Proof.
  induction k as [|k IH]; [lia|].
  intros n name Hk. destruct n as [ | | |cf|c|f|e|ks e]; try done.
  - cbn [iter_nodes_postorder node_size]. rewrite length_app.
    rewrite iter_fields_length.
    + simpl. lia.
    + intros key v nm Hv. apply IH.
      pose proof (node_size_field _ _ _ Hv). lia.
  - cbn [iter_nodes_postorder node_size]. rewrite length_app, IH; simpl in *; lia.
  - cbn [iter_nodes_postorder node_size]. rewrite length_app, IH; simpl in *; lia.
Qed.

Lemma iter_nodes_postorder_last_length n name :
  last (iter_nodes_postorder n name) = Some (n, name)
  ∧ length (iter_nodes_postorder n name) = node_size n.
Proof.
  split.
  - destruct n; try done; cbn [iter_nodes_postorder]; apply last_snoc.
  - apply (iter_nodes_postorder_length_size (S (node_size n))). lia.
Qed.

(** X23: the traversal yields as many pairs as the tree has nodes, the
    root with the given name last. *)
Theorem iter_nodes_postorder_root_last n name :
  last (iter_nodes_postorder n name) = Some (n, name)
  ∧ length (iter_nodes_postorder n name) = node_size n.
Proof. apply iter_nodes_postorder_last_length. Qed.

Lemma iter_fields_elem (f : gmap string field) key v x :
  f !! key = Some v → x ∈ iter_nodes_postorder v.1.1 key →
  x ∈ map_fold (λ key (value : field) rest,
                  (iter_nodes_postorder value.1.1 key ++ rest)%list) [] f.
Proof.
  intros Hv%elem_of_map_to_list Hx. rewrite map_fold_foldr.
  induction (map_to_list f) as [|[k w] l IH]; simpl.
  - by apply elem_of_nil in Hv.
  - apply elem_of_cons in Hv as [[= <- <-]|Hv]; apply elem_of_app; auto.
Qed.

(** X24: the node of every field of a record is yielded under the key of
    the field. *)
Theorem iter_nodes_postorder_field (f : gmap string field) key v name :
  f !! key = Some v →
  (v.1.1, key) ∈ iter_nodes_postorder (ObjectNode f) name.
Proof.
  intros Hv. cbn [iter_nodes_postorder]. apply elem_of_app. left.
  apply (iter_fields_elem f key v); [done|].
  destruct (iter_nodes_postorder_last_length v.1.1 key) as [Hlast _].
  by apply last_Some_elem_of.
Qed.

Lemma iter_nodes_postorder_field_witness :
  (NumberNode false, "age")
  ∈ iter_nodes_postorder
      (ObjectNode {[ "age" := (NumberNode false, false, false);
                     "tags" := (ArrayNode (StringNode {[ "a" := 1 ]}),
                                true, false) ]}) "Response".
Proof.
  apply (iter_nodes_postorder_field _ "age" (NumberNode false, false, false)).
  reflexivity.
Defined.

Lemma substring_app_l (s1 s2 : string) :
  String.substring 0 (String.length s1) (s1 +:+ s2) = s1.
Proof. induction s1 as [|a s1 IH]; simpl; [by destruct s2|]. by rewrite IH. Qed.

Lemma substring_all (s : string) :
  String.substring 0 (String.length s) s = s.
Proof. induction s as [|b s IH]; simpl; [done|]. by rewrite IH. Qed.

Lemma substring_app_r (s1 s2 : string) :
  String.substring (String.length s1) (String.length s2) (s1 +:+ s2) = s2.
Proof.
  induction s1 as [|a s1 IH]; simpl; [|done]. apply substring_all.
Qed.

Lemma string_length_app (s1 s2 : string) :
  String.length (s1 +:+ s2) = (String.length s1 + String.length s2)%nat.
Proof. induction s1 as [|a s1 IH]; simpl; [done|]. by rewrite IH. Qed.

Lemma removesuffix_app self suffix :
  suffix ≠ "" → removesuffix (self +:+ suffix) suffix = self.
Proof.
  intros Hne. unfold removesuffix. rewrite string_length_app.
  replace (String.length self + String.length suffix - String.length suffix)%nat
    with (String.length self) by lia.
  rewrite substring_app_r, substring_app_l.
  rewrite bool_decide_eq_true_2; [done|]. split_and!; [done|lia|done].
Qed.

(** X25: the element of an array (or key-indexed array) named with a final
    [s] is visited under the name without it, right before the array. *)
Theorem iter_nodes_postorder_plural value_node name :
  iter_nodes_postorder (ArrayNode value_node) (name +:+ "s")
  = (iter_nodes_postorder value_node name
     ++ [(ArrayNode value_node, name +:+ "s")])%list
  ∧ ∀ keys,
      iter_nodes_postorder (KeyIndexedArrayNode keys value_node) (name +:+ "s")
      = (iter_nodes_postorder value_node name
         ++ [(KeyIndexedArrayNode keys value_node, name +:+ "s")])%list.
Proof.
  split; [|intros keys]; cbn [iter_nodes_postorder];
    by rewrite removesuffix_app.
Qed.
